(** * Plugin lists of the Grafana operator (api/v1beta1/plugin_list.go)

    A shallow embedding of [GrafanaPlugin], [PluginList] and the methods of
    [PluginList], followed by the properties of the specification that
    concern them.

    Go strings are byte strings and are modelled by [string] (a list of 8-bit
    [ascii]); a slice of structs is modelled by a [list] of records; a Go
    result pair [(T, error)] is modelled by [result T]. *)

From Stdlib Require Import List String Ascii ZArith NArith Bool Lia.
Import ListNotations.
Local Open Scope string_scope.
Local Open Scope list_scope.

(** ** Go results *)

(** The Go [error] values met in this file all come from the
    semantic-version package; the specification calls them InvalidVersion. *)
Inductive error : Type :=
| InvalidVersion (reason : string).

Inductive result (A : Type) : Type :=
| Ok (a : A)
| Err (err : error).
Arguments Ok {A} a.
Arguments Err {A} err.

Definition is_Ok {A : Type} (r : result A) : bool :=
  match r with Ok _ => true | Err _ => false end.

(** ** The semantic-version package, as the plugin list uses it *)

Module semver.

(** plugin_list.go calls [semver.Parse], [semver.Make] and
    [Version.Compare] of github.com/blang/semver, which is an imported
    package and not part of the repository's sources.  The methods of
    [PluginList] are therefore parameterised by the package. *)
Class Package : Type := {
  Version : Type;
  Parse : string -> result Version;
  Compare : Version -> Version -> Z
}.

(** In the package, Make is an alias of Parse. *)
Definition Make {pkg : Package} (s : string) : result Version := Parse s.

End semver.

(** ** The data model *)

Record GrafanaPlugin : Type := {
  Name : string;
  Version : string
}.

Definition PluginList : Type := list GrafanaPlugin.

(** ** Methods that do not parse versions *)

(** [for _, installedPlugin := range l] binds [installedPlugin] to a COPY of
    each element ([PluginList] is a slice of struct values, not of pointers).
    The assignment [installedPlugin.Version = plugin.Version] therefore
    changes the loop variable only, and the loop then breaks.  The slice the
    method was called on is what the caller sees afterwards; the loop variable
    is dropped. *)
Fixpoint Update_range (l : PluginList) (remaining : list GrafanaPlugin)
  (plugin : GrafanaPlugin) : PluginList :=
  match remaining with
  | [] => l
  | installedPlugin :: remaining' =>
      if String.eqb (Name installedPlugin) (Name plugin) then
        let installedPlugin :=
          {| Name := Name installedPlugin; Version := Version plugin |} in
        (* break *)
        let _ := installedPlugin in l
      else Update_range l remaining' plugin
  end.

(** [Update(plugin)]: the receiver after the call. *)
Definition Update (l : PluginList) (plugin : GrafanaPlugin) : PluginList :=
  Update_range l l plugin.

Fixpoint HasSomeVersionOf (l : PluginList) (plugin : GrafanaPlugin) : bool :=
  match l with
  | [] => false
  | listedPlugin :: rest =>
      if String.eqb (Name listedPlugin) (Name plugin) then true
      else HasSomeVersionOf rest plugin
  end.

Fixpoint HasExactVersionOf (l : PluginList) (plugin : GrafanaPlugin) : bool :=
  match l with
  | [] => false
  | listedPlugin :: rest =>
      if String.eqb (Name listedPlugin) (Name plugin)
         && String.eqb (Version listedPlugin) (Version plugin)
      then true
      else HasExactVersionOf rest plugin
  end.

(** [GetInstalledVersionOf]: a pointer to a copy of the first entry of that
    name, or nil. *)
Fixpoint GetInstalledVersionOf (l : PluginList) (plugin : GrafanaPlugin)
  : option GrafanaPlugin :=
  match l with
  | [] => None
  | listedPlugin :: rest =>
      if String.eqb (Name listedPlugin) (Name plugin) then Some listedPlugin
      else GetInstalledVersionOf rest plugin
  end.

(** The loop of [VersionsOf]; [i] is the counter, a Go int that stays below
    the length of the slice and so never wraps. *)
Fixpoint VersionsOf_range (i : Z) (l : list GrafanaPlugin)
  (plugin : GrafanaPlugin) : Z :=
  match l with
  | [] => i
  | listedPlugin :: rest =>
      if String.eqb (Name listedPlugin) (Name plugin)
      then VersionsOf_range (i + 1) rest plugin
      else VersionsOf_range i rest plugin
  end.

Definition VersionsOf (l : PluginList) (plugin : GrafanaPlugin) : Z :=
  VersionsOf_range 0 l plugin.

(** ** Methods that parse versions *)

Section Methods.
Context {pkg : semver.Package}.

(** The loop of [Sanitize]; [sanitized] is the slice built so far. *)
Fixpoint Sanitize_range (sanitized : PluginList) (l : list GrafanaPlugin)
  : PluginList :=
  match l with
  | [] => sanitized
  | plugin :: rest =>
      match semver.Parse (Version plugin) with
      | Err _ => Sanitize_range sanitized rest (* continue *)
      | Ok _ =>
          if negb (HasSomeVersionOf sanitized plugin)
          then Sanitize_range (sanitized ++ [plugin]) rest
          else Sanitize_range sanitized rest
      end
  end.

Definition Sanitize (l : PluginList) : PluginList := Sanitize_range [] l.

Fixpoint HasNewerVersionOf (l : PluginList) (plugin : GrafanaPlugin)
  : result bool :=
  match l with
  | [] => Ok false
  | listedPlugin :: rest =>
      if negb (String.eqb (Name listedPlugin) (Name plugin))
      then HasNewerVersionOf rest plugin (* continue *)
      else
        match semver.Make (Version listedPlugin) with
        | Err err => Err err
        | Ok listedVersion =>
            match semver.Make (Version plugin) with
            | Err err => Err err
            | Ok requestedVersion =>
                if Z.eqb (semver.Compare listedVersion requestedVersion) 1
                then Ok true
                else HasNewerVersionOf rest plugin
            end
        end
  end.

(** The loop of [ConsolidatedConcat]; [consolidatedPlugins] is the slice
    built so far. *)
Fixpoint ConsolidatedConcat_range (consolidatedPlugins : PluginList)
  (others : list GrafanaPlugin) : result PluginList :=
  match others with
  | [] => Ok consolidatedPlugins
  | plugin :: rest =>
      if negb (HasSomeVersionOf consolidatedPlugins plugin)
      then ConsolidatedConcat_range (consolidatedPlugins ++ [plugin]) rest
      else
        match HasNewerVersionOf consolidatedPlugins plugin with
        | Err err => Err err
        | Ok hasNewer =>
            if hasNewer
            then ConsolidatedConcat_range consolidatedPlugins rest
            else if HasExactVersionOf consolidatedPlugins plugin
            then ConsolidatedConcat_range consolidatedPlugins rest
            else ConsolidatedConcat_range
                   (Update consolidatedPlugins plugin) rest
        end
  end.

(** The receiver [l] is not read by the method. *)
Definition ConsolidatedConcat (l : PluginList) (others : PluginList)
  : result PluginList :=
  ConsolidatedConcat_range [] others.

End Methods.

(** ** SHA-256 and hexadecimal formatting, as [Hash] uses them *)

Module sha256.

(** Modelled from the spec: [Hash] calls crypto/sha256 of the Go standard
    library, which is not under src/.  The specification names the function
    (the SHA-256 digest, 256 bits); the model below is FIPS 180-4, laid out
    as a block function over a state of eight 32-bit words, bytes and words
    being integers with the wrap-around written out. *)

Definition uint32 (x : Z) : Z := (x mod 4294967296)%Z.

Definition RotateLeft32 (x k : Z) : Z :=
  let s := (k mod 32)%Z in
  uint32 (Z.lor (Z.shiftl x s) (Z.shiftr x (32 - s)%Z)).

(** The first 64 prime numbers. *)
Definition primes : list Z :=
  [ 2; 3; 5; 7; 11; 13; 17; 19; 23; 29; 31; 37; 41; 43; 47; 53;
    59; 61; 67; 71; 73; 79; 83; 89; 97; 101; 103; 107; 109; 113; 127; 131;
    137; 139; 149; 151; 157; 163; 167; 173; 179; 181; 191; 193; 197; 199;
    211; 223; 227; 229; 233; 239; 241; 251; 257; 263; 269; 271; 277; 281;
    283; 293; 307; 311 ]%Z.

(** The greatest [r + d] with [d < 2 ^ k] whose cube is at most [n], found
    bit by bit. *)
Fixpoint cube_root_from (k : nat) (r n : Z) : Z :=
  match k with
  | O => r
  | S k' =>
      let r' := (r + 2 ^ Z.of_nat k')%Z in
      if (r' * r' * r' <=? n)%Z then cube_root_from k' r' n
      else cube_root_from k' r n
  end.

(** The round constants: the first 32 bits of the fractional parts of the
    cube roots of the first 64 primes (0x428a2f98, ..., 0xc67178f2). *)
Definition _K : list Z :=
  Eval vm_compute in
    map (fun p => uint32 (cube_root_from 36 0 (p * 2 ^ 96))%Z) primes.

(** The chaining value: eight 32-bit words. *)
Record state : Type := mkState {
  wa : Z; wb : Z; wc : Z; wd : Z; we : Z; wf : Z; wg : Z; wh : Z
}.

Definition init : state :=
  mkState 0x6a09e667%Z 0xbb67ae85%Z 0x3c6ef372%Z 0xa54ff53a%Z
          0x510e527f%Z 0x9b05688c%Z 0x1f83d9ab%Z 0x5be0cd19%Z.

Definition word_of_bytes (b0 b1 b2 b3 : Z) : Z :=
  Z.lor (Z.lor (Z.lor (Z.shiftl b0 24) (Z.shiftl b1 16)) (Z.shiftl b2 8)) b3.

Definition bytes_of_word (x : Z) : list Z :=
  [ Z.land (Z.shiftr x 24) 255; Z.land (Z.shiftr x 16) 255;
    Z.land (Z.shiftr x 8) 255; Z.land x 255 ].

(** The first 16 words of the message schedule: the chunk, big-endian. *)
Fixpoint load_words (n : nat) (p : list Z) : list Z :=
  match n, p with
  | S n', b0 :: b1 :: b2 :: b3 :: p' =>
      word_of_bytes b0 b1 b2 b3 :: load_words n' p'
  | _, _ => []
  end.

(** [n] further words of the message schedule, after those of [w]. *)
Fixpoint extend_words (n : nat) (w : list Z) : list Z :=
  match n with
  | O => w
  | S n' =>
      let i := List.length w in
      let v1 := nth (i - 2) w 0%Z in
      let t1 := Z.lxor (Z.lxor (RotateLeft32 v1 (-17)) (RotateLeft32 v1 (-19)))
                       (Z.shiftr v1 10) in
      let v2 := nth (i - 15) w 0%Z in
      let t2 := Z.lxor (Z.lxor (RotateLeft32 v2 (-7)) (RotateLeft32 v2 (-18)))
                       (Z.shiftr v2 3) in
      extend_words n'
        (w ++ [uint32 (t1 + nth (i - 7) w 0 + t2 + nth (i - 16) w 0)%Z])
  end.

Definition round (s : state) (kw : Z * Z) : state :=
  let '(k, w) := kw in
  let '(mkState a b c d e f g h) := s in
  let t1 := (h
             + Z.lxor (Z.lxor (RotateLeft32 e (-6)) (RotateLeft32 e (-11)))
                      (RotateLeft32 e (-25))
             + Z.lxor (Z.land e f) (Z.land (Z.lxor e 4294967295) g)
             + k + w)%Z in
  let t2 := (Z.lxor (Z.lxor (RotateLeft32 a (-2)) (RotateLeft32 a (-13)))
                    (RotateLeft32 a (-22))
             + Z.lxor (Z.lxor (Z.land a b) (Z.land a c)) (Z.land b c))%Z in
  mkState (uint32 (t1 + t2)) a b c (uint32 (d + t1)) e f g.

(** One 64-byte chunk. *)
Definition block (dig : state) (chunk : list Z) : state :=
  let w := extend_words 48 (load_words 16 chunk) in
  let s := fold_left round (combine _K w) dig in
  mkState (uint32 (wa dig + wa s)) (uint32 (wb dig + wb s))
          (uint32 (wc dig + wc s)) (uint32 (wd dig + wd s))
          (uint32 (we dig + we s)) (uint32 (wf dig + wf s))
          (uint32 (wg dig + wg s)) (uint32 (wh dig + wh s)).

(** All whole chunks of [p], in order; every step takes 64 bytes off [p], so
    [length p] steps are more than enough. *)
Fixpoint blocks (fuel : nat) (dig : state) (p : list Z) : state :=
  match fuel with
  | O => dig
  | S fuel' =>
      if (64 <=? List.length p)%nat
      then blocks fuel' (block dig (firstn 64 p)) (skipn 64 p)
      else dig
  end.

(** The padding: a 1 bit, 0 bits up to 56 bytes mod 64, and the length of the
    message in bits as a 64-bit big-endian integer. *)
Definition padding (len : Z) : list Z :=
  let t := (if len mod 64 <? 56 then 56 - len mod 64
            else 64 + 56 - len mod 64)%Z in
  let bits := ((len * 8) mod 18446744073709551616)%Z in
  128%Z :: repeat 0%Z (Z.to_nat (t - 1))
    ++ bytes_of_word (Z.shiftr bits 32)
    ++ bytes_of_word (Z.land bits 4294967295).

(** The digest of a message: 32 bytes. *)
Definition Sum256 (data : list Z) : list Z :=
  let p := data ++ padding (Z.of_nat (List.length data)) in
  let '(mkState a b c d e f g h) := blocks (List.length p) init p in
  bytes_of_word a ++ bytes_of_word b ++ bytes_of_word c ++ bytes_of_word d
  ++ bytes_of_word e ++ bytes_of_word f ++ bytes_of_word g ++ bytes_of_word h.

End sha256.

(** The bytes of a Go string. *)
Fixpoint bytes_of_string (s : string) : list Z :=
  match s with
  | EmptyString => []
  | String c s' => Z.of_N (N_of_ascii c) :: bytes_of_string s'
  end.

Module fmt.

Definition ldigits : string := "0123456789abcdef".

Definition hex_digit (n : Z) : ascii :=
  match String.get (Z.to_nat n) ldigits with
  | Some c => c
  | None => "0"%char
  end.

(** Modelled from the spec: [fmt.Sprintf] of the Go standard library is not
    under src/.  With the verb %x a byte slice is printed as two lowercase
    hexadecimal digits per byte, high digit first. *)
Fixpoint Sprintf_x (bytes : list Z) : string :=
  match bytes with
  | [] => EmptyString
  | b :: rest =>
      String (hex_digit (Z.shiftr b 4))
        (String (hex_digit (Z.land b 15)) (Sprintf_x rest))
  end.

(** Modelled from the spec: [fmt.Sprintf] with the format of two %s verbs
    separated by one space prints the two strings with a space between
    them. *)
Definition Sprintf_s_s (a b : string) : string := (a ++ " " ++ b)%string.

End fmt.

Module strings.

(** Modelled from the spec: [strings.Join] of the Go standard library is not
    under src/.  It gives the elements in order with [sep] between
    consecutive ones, and the empty string for no element. *)
Fixpoint Join (elems : list string) (sep : string) : string :=
  match elems with
  | [] => EmptyString
  | [x] => x
  | x :: rest => (x ++ sep ++ Join rest sep)%string
  end.

End strings.

(** The loop of [Hash]; [sb] is the content of the string builder. *)
Fixpoint Hash_range (sb : string) (l : list GrafanaPlugin) : string :=
  match l with
  | [] => sb
  | plugin :: rest =>
      Hash_range ((sb ++ Name plugin) ++ Version plugin)%string rest
  end.

Definition Hash (l : PluginList) : string :=
  let sb := Hash_range EmptyString l in
  fmt.Sprintf_x (sha256.Sum256 (bytes_of_string sb)).

(** The loop of [String]; [plugins] is the slice of rendered entries. *)
Fixpoint String_range (plugins : list string) (l : list GrafanaPlugin)
  : list string :=
  match l with
  | [] => plugins
  | plugin :: rest =>
      String_range
        (plugins ++ [fmt.Sprintf_s_s (Name plugin) (Version plugin)]) rest
  end.

(** The method [String] of [PluginList]; the name [String] is taken by the
    constructor of strings. *)
Definition PluginList_String (l : PluginList) : string :=
  strings.Join (String_range [] l) ",".

(** ** The semantic-version package the repository imports *)

Module blang.

(** Modelled from the spec: github.com/blang/semver is imported by
    plugin_list.go and is not under src/.  The specification describes a
    version as MAJOR.MINOR.PATCH with optional -prerelease and +build
    suffixes, ordered by major, then minor, then patch, then the pre-release
    rules, build metadata being ignored.  The model follows the package's
    Parse and Compare: numeric fields are decimal, without leading zeroes,
    and fit 64 bits; pre-release and build identifiers are non-empty and
    made of letters, digits and the hyphen. *)

Definition numbers : string := "0123456789".
Definition alphas : string :=
  "abcdefghijklmnopqrstuvwxyzABCDEFGHIJKLMNOPQRSTUVWXYZ-".
Definition alphanum : string := (alphas ++ numbers)%string.

Fixpoint ContainsRune (set : string) (r : ascii) : bool :=
  match set with
  | EmptyString => false
  | String c set' => if Ascii.eqb c r then true else ContainsRune set' r
  end.

Fixpoint containsOnly (s set : string) : bool :=
  match s with
  | EmptyString => true
  | String c s' => ContainsRune set c && containsOnly s' set
  end.

Definition hasLeadingZeroes (s : string) : bool :=
  match s with
  | String "0"%char (String _ _) => true
  | _ => false
  end.

(** The value of a string of decimal digits. *)
Fixpoint digits_value (acc : N) (s : string) : N :=
  match s with
  | EmptyString => acc
  | String c s' => digits_value (10 * acc + (N_of_ascii c - 48))%N s'
  end.

(** strconv.ParseUint(s, 10, 64), on a string of decimal digits. *)
Definition ParseUint (s : string) : result N :=
  match s with
  | EmptyString => Err (InvalidVersion "invalid syntax")
  | _ =>
      let n := digits_value 0%N s in
      if (n <? 18446744073709551616)%N then Ok n
      else Err (InvalidVersion "value out of range")
  end.

(** [s] cut at the first [sep]: what stands before and after it. *)
Fixpoint cut (sep : ascii) (s : string) : option (string * string) :=
  match s with
  | EmptyString => None
  | String c s' =>
      if Ascii.eqb c sep then Some (EmptyString, s')
      else match cut sep s' with
           | Some (before, after) => Some (String c before, after)
           | None => None
           end
  end.

(** strings.Split(s, sep): never empty, the empty string gives one empty
    part. *)
Fixpoint Split_from (cur : string) (sep : ascii) (s : string) : list string :=
  match s with
  | EmptyString => [cur]
  | String c s' =>
      if Ascii.eqb c sep then cur :: Split_from EmptyString sep s'
      else Split_from (cur ++ String c EmptyString)%string sep s'
  end.

Definition Split (s : string) (sep : ascii) : list string :=
  Split_from EmptyString sep s.

Record PRVersion : Type := {
  VersionStr : string;
  VersionNum : N;
  IsNum : bool
}.

Record Version : Type := {
  Major : N;
  Minor : N;
  Patch : N;
  Pre : list PRVersion;
  Build : list string
}.

(** A numeric field: digits only, no leading zero, 64 bits. *)
Definition number (what : string) (s : string) : result N :=
  if negb (containsOnly s numbers)
  then Err (InvalidVersion ("Invalid character(s) found in " ++ what)%string)
  else if hasLeadingZeroes s
  then Err (InvalidVersion (what ++ " must not contain leading zeroes")%string)
  else ParseUint s.

Definition NewPRVersion (s : string) : result PRVersion :=
  match s with
  | EmptyString => Err (InvalidVersion "Prerelease is empty")
  | _ =>
      if containsOnly s numbers then
        if hasLeadingZeroes s
        then Err (InvalidVersion
                    "Numeric PreRelease version must not contain leading zeroes")
        else match ParseUint s with
             | Err err => Err err
             | Ok num =>
                 Ok {| VersionStr := EmptyString; VersionNum := num;
                       IsNum := true |}
             end
      else if containsOnly s alphanum then
        Ok {| VersionStr := s; VersionNum := 0%N; IsNum := false |}
      else Err (InvalidVersion "Invalid character(s) found in prerelease")
  end.

Fixpoint parse_prerelease (parts : list string) : result (list PRVersion) :=
  match parts with
  | [] => Ok []
  | prstr :: rest =>
      match NewPRVersion prstr with
      | Err err => Err err
      | Ok parsedPR =>
          match parse_prerelease rest with
          | Err err => Err err
          | Ok pre => Ok (parsedPR :: pre)
          end
      end
  end.

Fixpoint parse_build (parts : list string) : result (list string) :=
  match parts with
  | [] => Ok []
  | str :: rest =>
      match str with
      | EmptyString => Err (InvalidVersion "Build meta data is empty")
      | _ =>
          if negb (containsOnly str alphanum)
          then Err (InvalidVersion
                      "Invalid character(s) found in build meta data")
          else match parse_build rest with
               | Err err => Err err
               | Ok build => Ok (str :: build)
               end
      end
  end.

Definition Parse (s : string) : result Version :=
  match s with
  | EmptyString => Err (InvalidVersion "Version string empty")
  | _ =>
      (* major.minor.(patch+pr+meta) *)
      match cut "."%char s with
      | None => Err (InvalidVersion "No Major.Minor.Patch elements found")
      | Some (part0, s') =>
      match cut "."%char s' with
      | None => Err (InvalidVersion "No Major.Minor.Patch elements found")
      | Some (part1, part2) =>
      match number "major number" part0 with
      | Err err => Err err
      | Ok major =>
      match number "minor number" part1 with
      | Err err => Err err
      | Ok minor =>
      let '(patchStr, build) :=
        match cut "+"%char part2 with
        | Some (before, after) => (before, Split after "."%char)
        | None => (part2, [])
        end in
      let '(patchStr, prerelease) :=
        match cut "-"%char patchStr with
        | Some (before, after) => (before, Split after "."%char)
        | None => (patchStr, [])
        end in
      match number "patch number" patchStr with
      | Err err => Err err
      | Ok patch =>
      match parse_prerelease prerelease with
      | Err err => Err err
      | Ok pre =>
      match parse_build build with
      | Err err => Err err
      | Ok meta =>
          Ok {| Major := major; Minor := minor; Patch := patch;
                Pre := pre; Build := meta |}
      end end end end end end end
  end.

Definition compareN (a b : N) : Z :=
  if (a =? b)%N then 0%Z else if (b <? a)%N then 1%Z else (-1)%Z.

Definition PRVersion_Compare (v o : PRVersion) : Z :=
  if IsNum v && negb (IsNum o) then (-1)%Z
  else if negb (IsNum v) && IsNum o then 1%Z
  else if IsNum v && IsNum o then compareN (VersionNum v) (VersionNum o)
  else
    match String.compare (VersionStr v) (VersionStr o) with
    | Eq => 0%Z
    | Gt => 1%Z
    | Lt => (-1)%Z
    end.

(** The identifiers of two pre-releases, position by position; when one is a
    prefix of the other, the longer one is the greater. *)
Fixpoint Pre_Compare (v o : list PRVersion) : Z :=
  match v, o with
  | [], [] => 0%Z
  | [], _ :: _ => (-1)%Z
  | _ :: _, [] => 1%Z
  | x :: v', y :: o' =>
      let comp := PRVersion_Compare x y in
      if (comp =? 0)%Z then Pre_Compare v' o'
      else if (comp =? 1)%Z then 1%Z else (-1)%Z
  end.

Definition Compare (v o : Version) : Z :=
  if negb (Major v =? Major o)%N
  then (if (Major o <? Major v)%N then 1%Z else (-1)%Z)
  else if negb (Minor v =? Minor o)%N
  then (if (Minor o <? Minor v)%N then 1%Z else (-1)%Z)
  else if negb (Patch v =? Patch o)%N
  then (if (Patch o <? Patch v)%N then 1%Z else (-1)%Z)
  else
    match Pre v, Pre o with
    | [], [] => 0%Z
    | [], _ :: _ => 1%Z
    | _ :: _, [] => (-1)%Z
    | _, _ => Pre_Compare (Pre v) (Pre o)
    end.

#[global] Instance package : semver.Package := {
  semver.Version := Version;
  semver.Parse := Parse;
  semver.Compare := Compare
}.

End blang.

(** ** Notions the properties are stated with *)

(** A version string parses as a semantic version. *)
Definition parses {pkg : semver.Package} (version : string) : bool :=
  is_Ok (semver.Parse version).

Section Notions.
Context {pkg : semver.Package}.

(** The version of an entry parses. *)
Definition valid (p : GrafanaPlugin) : bool := parses (Version p).

(** [q] has the name of [p] and a version that parses. *)
Definition parses_with_name (p q : GrafanaPlugin) : bool :=
  String.eqb (Name q) (Name p) && parses (Version q).

(** The entry [p], standing at position [i] of [L], is the first occurrence
    of its name among the entries of [L] whose version parses: its version
    parses, and none of the [i] entries before it has its name and a version
    that parses. *)
Definition first_parsing_at (L : PluginList) (i : nat) (p : GrafanaPlugin)
  : bool :=
  parses (Version p) && negb (existsb (parses_with_name p) (firstn i L)).

(** The retained entries in the specification's words: the entries of [L]
    that are, at their position, the first occurrence of their name among
    the entries whose version parses, in the order of their positions. *)
Definition first_parsing_occurrences (L : PluginList) : PluginList :=
  map snd
    (filter (fun ip => first_parsing_at L (fst ip) (snd ip))
       (combine (seq 0 (List.length L)) L)).

(** The same entries of [l], read from left to right, [pre] being the
    entries already passed. *)
Fixpoint first_parsing_from (pre l : list GrafanaPlugin)
  : list GrafanaPlugin :=
  match l with
  | [] => []
  | p :: rest =>
      if parses (Version p) && negb (existsb (parses_with_name p) pre)
      then p :: first_parsing_from (pre ++ [p]) rest
      else first_parsing_from (pre ++ [p]) rest
  end.

(** The entries of [pre] that share the name of [e] are no reason to stop
    with true: none parses to a version strictly greater than [rv]. *)
Definition none_newer (pre : list GrafanaPlugin) (e : GrafanaPlugin)
  (rv : semver.Version) : Prop :=
  forall y yv, In y pre -> Name y = Name e ->
    semver.Parse (Version y) = Ok yv -> semver.Compare yv rv <> 1%Z.

(** Some entry of [L] shares the name of [e] and parses to a version
    strictly greater than [rv]. *)
Definition some_newer (L : PluginList) (e : GrafanaPlugin)
  (rv : semver.Version) : bool :=
  existsb
    (fun y =>
       String.eqb (Name y) (Name e) &&
       match semver.Parse (Version y) with
       | Ok yv => Z.eqb (semver.Compare yv rv) 1
       | Err _ => false
       end) L.

(** Two entries of the same name, one of which has a version that does not
    parse: the first already consolidated and the second still to come, or
    both still to come. *)
Definition conflict (acc : PluginList) (others : list GrafanaPlugin) : Prop :=
  (exists x q, In x acc /\ In q others /\ Name x = Name q /\
     (parses (Version x) = false \/ parses (Version q) = false))
  \/ (exists pre p mid q post,
        others = pre ++ p :: mid ++ q :: post /\ Name p = Name q /\
        (parses (Version p) = false \/ parses (Version q) = false)).

End Notions.

(** [x] carries the name of [p]: the test the queries make on each listed
    entry. *)
Definition same_name (p x : GrafanaPlugin) : bool :=
  String.eqb (Name x) (Name p).

Section Lookups.
Context {pkg : semver.Package}.

(** The first entry of [l] that carries the name of [p] and whose version
    parses. *)
Definition first_valid (l : PluginList) (p : GrafanaPlugin)
  : option GrafanaPlugin :=
  find (fun x => same_name p x && valid x) l.

(** The comparison [HasNewerVersionOf] makes at one listed entry [x]. *)
Definition newer_than (x e : GrafanaPlugin) : result bool :=
  match semver.Make (Version x) with
  | Err err => Err err
  | Ok listedVersion =>
      match semver.Make (Version e) with
      | Err err => Err err
      | Ok requestedVersion =>
          Ok (Z.eqb (semver.Compare listedVersion requestedVersion) 1)
      end
  end.

(** Whenever two entries of [others] have the same name, the versions of
    both parse. *)
Definition shared_names_parse (others : list GrafanaPlugin) : Prop :=
  forall pre p mid q post,
    others = pre ++ p :: mid ++ q :: post -> Name p = Name q ->
    parses (Version p) = true /\ parses (Version q) = true.

End Lookups.

(** Every entry is acceptable. *)
Definition any (_ : GrafanaPlugin) : bool := true.

(** [l] is [m] with some entries left out, the others in their order. *)
Inductive Subsequence {A : Type} : list A -> list A -> Prop :=
| Subsequence_nil : Subsequence [] []
| Subsequence_skip x l m : Subsequence l m -> Subsequence l (x :: m)
| Subsequence_keep x l m : Subsequence l m -> Subsequence (x :: l) (x :: m).

(** The entries of [l] that satisfy [ok] and whose name is carried neither by
    an entry of [seen] nor by an earlier such entry of [l]. *)
Fixpoint first_per_name (ok : GrafanaPlugin -> bool) (seen : PluginList)
  (l : list GrafanaPlugin) : list GrafanaPlugin :=
  match l with
  | [] => []
  | p :: rest =>
      if ok p && negb (HasSomeVersionOf seen p)
      then p :: first_per_name ok (seen ++ [p]) rest
      else first_per_name ok seen rest
  end.

(** The text a collection is hashed from, in the specification's words: each
    entry's name immediately followed by its version, in sequence order. *)
Definition fingerprint_text (l : PluginList) : string :=
  String.concat EmptyString
    (map (fun p => (Name p ++ Version p)%string) l).

(** A character is a decimal digit or one of the letters a to f. *)
Definition lower_hex (c : ascii) : Prop :=
  In c (list_ascii_of_string fmt.ldigits).

Definition plugin (name version : string) : GrafanaPlugin :=
  {| Name := name; Version := version |}.

(** * Properties *)

(** ** Update *)

Lemma Update_range_unchanged (l : PluginList) (remaining : list GrafanaPlugin)
  (p : GrafanaPlugin) : Update_range l remaining p = l.
Proof.
  induction remaining as [|x remaining IH]; simpl.
  - reflexivity.
  - destruct (String.eqb (Name x) (Name p)); [reflexivity | exact IH].
Qed.

Lemma Update_unchanged (l : PluginList) (p : GrafanaPlugin) : Update l p = l.
Proof. apply Update_range_unchanged. Qed.

(** ** Membership by name *)

Lemma HasSomeVersionOf_true_iff (l : PluginList) (p : GrafanaPlugin) :
  HasSomeVersionOf l p = true <-> exists x, In x l /\ Name x = Name p.
Proof.
  induction l as [|a l IH]; simpl.
  - split; [discriminate | intros (x & [] & _)].
  - destruct (String.eqb (Name a) (Name p)) eqn:E.
    + apply String.eqb_eq in E. split; [|reflexivity].
      intros _. exists a. auto.
    + apply String.eqb_neq in E. rewrite IH. split.
      * intros (x & Hx & Hn). exists x. auto.
      * intros (x & [Hx | Hx] & Hn); [subst; contradiction | exists x; auto].
Qed.

Lemma HasSomeVersionOf_false_iff (l : PluginList) (p : GrafanaPlugin) :
  HasSomeVersionOf l p = false <-> forall x, In x l -> Name x <> Name p.
Proof.
  split.
  - intros H x Hx Hn.
    assert (HasSomeVersionOf l p = true) as Ht
      by (apply HasSomeVersionOf_true_iff; exists x; auto).
    congruence.
  - intros H. destruct (HasSomeVersionOf l p) eqn:E; [|reflexivity].
    apply HasSomeVersionOf_true_iff in E. destruct E as (x & Hx & Hn).
    destruct (H x Hx Hn).
Qed.

Lemma HasSomeVersionOf_name (l : PluginList) (p q : GrafanaPlugin) :
  Name p = Name q -> HasSomeVersionOf l p = HasSomeVersionOf l q.
Proof.
  intros E. induction l as [|a l IH]; simpl; [reflexivity|].
  rewrite E, IH. reflexivity.
Qed.

Lemma HasSomeVersionOf_app (l m : PluginList) (p : GrafanaPlugin) :
  HasSomeVersionOf (l ++ m) p = HasSomeVersionOf l p || HasSomeVersionOf m p.
Proof.
  induction l as [|a l IH]; simpl; [reflexivity|].
  destruct (String.eqb (Name a) (Name p)); [reflexivity | exact IH].
Qed.

Lemma HasSomeVersionOf_snoc_false (l : PluginList) (a p : GrafanaPlugin) :
  HasSomeVersionOf (l ++ [a]) p = false <->
  HasSomeVersionOf l p = false /\ Name a <> Name p.
Proof.
  rewrite HasSomeVersionOf_app, orb_false_iff. simpl.
  destruct (String.eqb (Name a) (Name p)) eqn:E.
  - apply String.eqb_eq in E. intuition congruence.
  - apply String.eqb_neq in E. intuition.
Qed.

Lemma HasSomeVersionOf_In_names (l : PluginList) (p : GrafanaPlugin) :
  HasSomeVersionOf l p = true <-> In (Name p) (map Name l).
Proof.
  rewrite HasSomeVersionOf_true_iff, in_map_iff.
  split; intros (x & H1 & H2); exists x; auto.
Qed.

Lemma NoDup_names_snoc (l : PluginList) (a : GrafanaPlugin) :
  NoDup (map Name l) -> HasSomeVersionOf l a = false ->
  NoDup (map Name (l ++ [a])).
Proof.
  intros Hl Ha. induction l as [|x l IH]; simpl in *.
  - constructor; [intros [] | constructor].
  - destruct (String.eqb (Name x) (Name a)) eqn:E; [discriminate|].
    apply String.eqb_neq in E. inversion Hl as [|? ? Hx Hl']; subst.
    constructor; [|auto].
    rewrite map_app, in_app_iff. simpl. intros [H | [H | []]]; auto.
Qed.

Lemma VersionsOf_range_count (i : Z) (l : list GrafanaPlugin)
  (p : GrafanaPlugin) :
  VersionsOf_range i l p
  = (i + Z.of_nat (count_occ string_dec (map Name l) (Name p)))%Z.
Proof.
  revert i. induction l as [|a l IH]; simpl; intros i; [lia|].
  destruct (String.eqb_spec (Name a) (Name p)) as [E | E];
    destruct (string_dec (Name a) (Name p)) as [E' | E']; try contradiction;
    rewrite IH; lia.
Qed.

Lemma VersionsOf_NoDup (l : PluginList) (p : GrafanaPlugin) :
  NoDup (map Name l) -> (VersionsOf l p <= 1)%Z.
Proof.
  intros H. unfold VersionsOf. rewrite VersionsOf_range_count.
  pose proof (proj1 (NoDup_count_occ string_dec (map Name l)) H (Name p)).
  lia.
Qed.

(** ** First entry of each name *)

Section FirstPerName.
Variable ok : GrafanaPlugin -> bool.

Lemma first_per_name_In (seen : PluginList) (l : list GrafanaPlugin)
  (x : GrafanaPlugin) :
  In x (first_per_name ok seen l) ->
  In x l /\ ok x = true /\ HasSomeVersionOf seen x = false.
Proof.
  revert seen. induction l as [|a l IH]; simpl; intros seen H; [destruct H|].
  destruct (ok a) eqn:Ea; simpl in H.
  - destruct (HasSomeVersionOf seen a) eqn:Es; simpl in H.
    + destruct (IH _ H) as (H1 & H2 & H3). auto.
    + destruct H as [-> | H]; [auto|].
      destruct (IH _ H) as (H1 & H2 & H3).
      apply HasSomeVersionOf_snoc_false in H3. intuition.
  - destruct (IH _ H) as (H1 & H2 & H3). auto.
Qed.

Lemma first_per_name_NoDup (seen : PluginList) (l : list GrafanaPlugin) :
  NoDup (map Name (first_per_name ok seen l)).
Proof.
  revert seen. induction l as [|a l IH]; simpl; intros seen; [constructor|].
  destruct (ok a && negb (HasSomeVersionOf seen a)); [|apply IH].
  simpl. constructor; [|apply IH].
  rewrite in_map_iff. intros (x & Hn & Hx).
  apply first_per_name_In in Hx. destruct Hx as (_ & _ & Hx).
  apply HasSomeVersionOf_snoc_false in Hx. destruct Hx as [_ Hx]. congruence.
Qed.

Lemma first_per_name_Subsequence (seen : PluginList)
  (l : list GrafanaPlugin) : Subsequence (first_per_name ok seen l) l.
Proof.
  revert seen. induction l as [|a l IH]; simpl; intros seen; [constructor|].
  destruct (ok a && negb (HasSomeVersionOf seen a)); constructor; apply IH.
Qed.

Lemma first_per_name_In_iff (seen : PluginList) (l : list GrafanaPlugin)
  (p : GrafanaPlugin) :
  In p (first_per_name ok seen l) <->
  exists pre post,
    l = pre ++ p :: post /\ ok p = true /\ HasSomeVersionOf seen p = false /\
    forall q, In q pre -> Name q = Name p -> ok q = false.
Proof.
  split.
  - revert seen. induction l as [|a l IH]; simpl; intros seen H; [destruct H|].
    destruct (ok a && negb (HasSomeVersionOf seen a)) eqn:E.
    + apply andb_true_iff in E. destruct E as [Ea Es].
      apply negb_true_iff in Es. destruct H as [-> | H].
      * exists [], l. simpl. intuition.
      * destruct (IH _ H) as (pre & post & -> & Hp & Hs & Hq).
        apply HasSomeVersionOf_snoc_false in Hs. destruct Hs as [Hs Hn].
        exists (a :: pre), post. simpl. repeat split; auto.
        intros q [-> | Hin] Hqn; [contradiction | auto].
    + destruct (IH _ H) as (pre & post & -> & Hp & Hs & Hq).
      exists (a :: pre), post. simpl. repeat split; auto.
      intros q [-> | Hin] Hqn; [|auto].
      destruct (ok q) eqn:Eq; [|reflexivity]. simpl in E.
      apply negb_false_iff in E.
      rewrite (HasSomeVersionOf_name seen q p Hqn) in E. congruence.
  - intros (pre & post & -> & Hp & Hs & Hq). revert seen Hs.
    induction pre as [|a pre IH]; simpl; intros seen Hs.
    + rewrite Hp, Hs. simpl. auto.
    + assert (forall q, In q pre -> Name q = Name p -> ok q = false) as Hq'
        by (intros q Hin; apply Hq; simpl; auto).
      destruct (ok a && negb (HasSomeVersionOf seen a)) eqn:E.
      * right. apply IH; [exact Hq'|].
        apply HasSomeVersionOf_snoc_false. split; [exact Hs|].
        intros Hn. apply andb_true_iff in E. destruct E as [Ea _].
        rewrite (Hq a (or_introl eq_refl) Hn) in Ea. discriminate.
      * apply IH; assumption.
Qed.

Lemma first_per_name_fixpoint (seen : PluginList) (m : list GrafanaPlugin) :
  Forall (fun p => ok p = true) m ->
  NoDup (map Name m) ->
  (forall x, In x m -> HasSomeVersionOf seen x = false) ->
  first_per_name ok seen m = m.
Proof.
  revert seen. induction m as [|a m IH]; simpl; intros seen Hok Hnd Hs.
  - reflexivity.
  - inversion Hok as [|? ? Ha Hok']; subst.
    inversion Hnd as [|? ? Hna Hnd']; subst.
    rewrite Ha, (Hs a (or_introl eq_refl)). simpl. f_equal.
    apply IH; auto.
    intros x Hx. apply HasSomeVersionOf_snoc_false. split; [auto|].
    intros Hn. apply Hna. rewrite Hn. apply in_map. exact Hx.
Qed.

End FirstPerName.

Lemma first_per_name_any_covers (seen : PluginList) (l : list GrafanaPlugin)
  (x : GrafanaPlugin) :
  In x l ->
  HasSomeVersionOf seen x = true
  \/ exists y, In y (first_per_name any seen l) /\ Name y = Name x.
Proof.
  revert seen. induction l as [|a l IH]; simpl; intros seen Hx; [destruct Hx|].
  destruct (HasSomeVersionOf seen a) eqn:Hs; simpl.
  - destruct Hx as [-> | Hx]; [left; exact Hs | apply IH; exact Hx].
  - destruct Hx as [-> | Hx]; [right; exists x; simpl; auto|].
    destruct (IH (seen ++ [a]) Hx) as [H | (y & Hy & Hn)].
    + rewrite HasSomeVersionOf_app in H. apply orb_true_iff in H.
      destruct H as [H | H]; [left; exact H|].
      right. exists a. simpl in *.
      destruct (String.eqb (Name a) (Name x)) eqn:E; [|discriminate].
      apply String.eqb_eq in E. auto.
    + right. exists y. simpl. auto.
Qed.

Section Properties.
Context {pkg : semver.Package}.

(** ** Sanitize *)

Lemma Sanitize_range_spec (sanitized : PluginList) (l : list GrafanaPlugin) :
  Sanitize_range sanitized l = sanitized ++ first_per_name valid sanitized l.
Proof.
  revert sanitized. induction l as [|a l IH]; simpl; intros sanitized.
  - symmetry. apply app_nil_r.
  - unfold valid at 1, parses.
    destruct (semver.Parse (Version a)) as [v | err]; simpl.
    + destruct (HasSomeVersionOf sanitized a); simpl.
      * apply IH.
      * rewrite IH, <- app_assoc. reflexivity.
    + apply IH.
Qed.

Lemma Sanitize_spec (l : PluginList) :
  Sanitize l = first_per_name valid [] l.
Proof. unfold Sanitize. rewrite Sanitize_range_spec. reflexivity. Qed.

Lemma existsb_snoc {A : Type} (f : A -> bool) (l : list A) (a : A) :
  existsb f (l ++ [a]) = existsb f l || f a.
Proof. rewrite existsb_app. simpl. rewrite orb_false_r. reflexivity. Qed.

(** The loop tests the name against the entries retained so far; that is
    the test against the entries passed so far that have a version that
    parses. *)
Lemma first_per_name_first_parsing (l : list GrafanaPlugin) :
  forall seen pre,
    (forall p, HasSomeVersionOf seen p = existsb (parses_with_name p) pre) ->
    first_per_name valid seen l = first_parsing_from pre l.
Proof.
  induction l as [|a l IH]; simpl; intros seen pre Hinv; [reflexivity|].
  unfold valid at 1. rewrite (Hinv a).
  destruct (parses (Version a) && negb (existsb (parses_with_name a) pre))
    eqn:E.
  - apply andb_true_iff in E. destruct E as [Ea _].
    f_equal. apply IH. intros p.
    rewrite HasSomeVersionOf_app, existsb_snoc, Hinv. f_equal.
    cbn [HasSomeVersionOf]. unfold parses_with_name. rewrite Ea.
    destruct (String.eqb (Name a) (Name p)); reflexivity.
  - apply IH. intros p. rewrite existsb_snoc, Hinv.
    assert (parses_with_name p a = true ->
            existsb (parses_with_name p) pre = true) as Hpa.
    { unfold parses_with_name at 1. intros H. apply andb_true_iff in H.
      destruct H as [En Ea]. apply String.eqb_eq in En. rewrite Ea in E.
      simpl in E. apply negb_false_iff in E. rewrite <- E.
      unfold parses_with_name. rewrite En. reflexivity. }
    destruct (parses_with_name p a); [|rewrite orb_false_r; reflexivity].
    rewrite Hpa; reflexivity.
Qed.

Lemma firstn_length_app {A : Type} (l1 l2 : list A) :
  firstn (List.length l1) (l1 ++ l2) = l1.
Proof. induction l1 as [|x l1 IH]; simpl; [destruct l2 | rewrite IH]; reflexivity. Qed.

(** Reading from left to right gives the entries selected by position. *)
Lemma first_parsing_from_positions (l : list GrafanaPlugin) :
  forall pre,
    first_parsing_from pre l
    = map snd
        (filter (fun ip => first_parsing_at (pre ++ l) (fst ip) (snd ip))
           (combine (seq (List.length pre) (List.length l)) l)).
Proof.
  induction l as [|a l IH]; intros pre; [reflexivity|].
  cbn [first_parsing_from List.length seq combine filter fst snd].
  unfold first_parsing_at at 1. rewrite firstn_length_app.
  specialize (IH (pre ++ [a])).
  rewrite <- app_assoc, length_app in IH. cbn [app List.length] in IH.
  rewrite Nat.add_1_r in IH.
  destruct (parses (Version a) && negb (existsb (parses_with_name a) pre));
    cbn [map snd]; rewrite IH; reflexivity.
Qed.

Lemma Sanitize_first_parsing_occurrences (L : PluginList) :
  Sanitize L = first_parsing_occurrences L.
Proof.
  rewrite Sanitize_spec.
  rewrite (first_per_name_first_parsing L [] []) by reflexivity.
  apply (first_parsing_from_positions L []).
Qed.

(** C5. For every collection L, [Sanitize L] holds no two entries of the same
    name; every entry of it has a version that parses; an entry is retained
    exactly when it stands in L at a place where its version parses and no
    earlier entry of L has both its name and a version that parses (the first
    occurrence of each name among the entries whose version parses); the
    retained entries stand in the order they have in L.  The result is
    fixed position by position: it is the list, in the order of L, of the
    entries of L that at their position have a version that parses while no
    entry at an earlier position has both their name and a version that
    parses.  [Sanitize] is a total function returning a collection: an entry
    whose version does not parse is left out, it is not an error. *)
Theorem Sanitize_invariant (L : PluginList) :
  NoDup (map Name (Sanitize L))
  /\ Forall (fun p => parses (Version p) = true) (Sanitize L)
  /\ (forall p,
        In p (Sanitize L) <->
        exists pre post,
          L = pre ++ p :: post /\ parses (Version p) = true /\
          forall q, In q pre -> Name q = Name p -> parses (Version q) = false)
  /\ Subsequence (Sanitize L) L
  /\ Sanitize L = first_parsing_occurrences L.
Proof.
  assert (Sanitize L = first_parsing_occurrences L) as Hpos
    by apply Sanitize_first_parsing_occurrences.
  split; [|split; [|split; [|split; [|exact Hpos]]]]; clear Hpos;
    rewrite Sanitize_spec; [| | split |].
  - apply first_per_name_NoDup.
  - apply Forall_forall. intros p Hp.
    apply first_per_name_In in Hp. apply Hp.
  - intros Hp. apply first_per_name_In_iff in Hp.
    destruct Hp as (pre & post & HL & Hv & _ & Hq).
    exists pre, post. auto.
  - intros (pre & post & HL & Hv & Hq). apply first_per_name_In_iff.
    exists pre, post. auto.
  - apply first_per_name_Subsequence.
Qed.

(** C6. [Sanitize] is idempotent: sanitizing a sanitized collection gives
    the same entries in the same order. *)
Theorem Sanitize_idempotent (L : PluginList) :
  Sanitize (Sanitize L) = Sanitize L.
Proof.
  rewrite (Sanitize_spec (Sanitize L)).
  apply first_per_name_fixpoint.
  - apply Forall_forall. intros p Hp. rewrite Sanitize_spec in Hp.
    apply first_per_name_In in Hp. apply Hp.
  - rewrite Sanitize_spec. apply first_per_name_NoDup.
  - reflexivity.
Qed.

(** ** HasNewerVersionOf *)

Lemma HasNewerVersionOf_no_match (L : PluginList) (e : GrafanaPlugin) :
  HasSomeVersionOf L e = false -> HasNewerVersionOf L e = Ok false.
Proof.
  induction L as [|a L IH]; simpl; [reflexivity|].
  destruct (String.eqb (Name a) (Name e)); simpl; [discriminate | exact IH].
Qed.

Lemma HasNewerVersionOf_bad_requested (L : PluginList) (e : GrafanaPlugin) :
  HasSomeVersionOf L e = true -> parses (Version e) = false ->
  exists err, HasNewerVersionOf L e = Err err.
Proof.
  unfold parses. intros Hs Hb. induction L as [|a L IH]; simpl in *.
  - discriminate.
  - destruct (String.eqb (Name a) (Name e)); simpl; [|auto].
    unfold semver.Make.
    destruct (semver.Parse (Version a)) as [v | err]; [|eauto].
    destruct (semver.Parse (Version e)) as [w | err]; [discriminate | eauto].
Qed.

Lemma HasNewerVersionOf_bad_listed (pre post : list GrafanaPlugin)
  (x e : GrafanaPlugin) (rv : semver.Version) :
  semver.Parse (Version e) = Ok rv ->
  Name x = Name e -> parses (Version x) = false ->
  none_newer pre e rv ->
  exists err, HasNewerVersionOf (pre ++ x :: post) e = Err err.
Proof.
  unfold parses. intros He Hn Hb. induction pre as [|a pre IH]; simpl; intros Hpre.
  - rewrite Hn, String.eqb_refl. simpl. unfold semver.Make.
    destruct (semver.Parse (Version x)) as [v | err]; [discriminate | eauto].
  - assert (none_newer pre e rv) as Hpre'
      by (intros y yv Hy; apply Hpre; simpl; auto).
    destruct (String.eqb (Name a) (Name e)) eqn:E; simpl; [|auto].
    apply String.eqb_eq in E. unfold semver.Make.
    destruct (semver.Parse (Version a)) as [v | err] eqn:Ea; [|eauto].
    rewrite He.
    destruct (Z.eqb_spec (semver.Compare v rv) 1) as [Hc | Hc]; [|auto].
    destruct (Hpre a v (or_introl eq_refl) E Ea Hc).
Qed.

Lemma HasNewerVersionOf_newer_listed (pre post : list GrafanaPlugin)
  (x e : GrafanaPlugin) (xv rv : semver.Version) :
  semver.Parse (Version e) = Ok rv ->
  Name x = Name e -> semver.Parse (Version x) = Ok xv ->
  semver.Compare xv rv = 1%Z ->
  (forall y, In y pre -> Name y = Name e -> parses (Version y) = true) ->
  none_newer pre e rv ->
  HasNewerVersionOf (pre ++ x :: post) e = Ok true.
Proof.
  unfold parses. intros He Hn Hx Hc.
  induction pre as [|a pre IH]; simpl; intros Hall Hpre.
  - rewrite Hn, String.eqb_refl. simpl. unfold semver.Make.
    rewrite Hx, He, Hc. reflexivity.
  - assert (none_newer pre e rv) as Hpre'
      by (intros y yv Hy; apply Hpre; simpl; auto).
    destruct (String.eqb (Name a) (Name e)) eqn:E; simpl; [|auto].
    apply String.eqb_eq in E. unfold semver.Make.
    specialize (Hall a (or_introl eq_refl) E) as Ha.
    destruct (semver.Parse (Version a)) as [v | err] eqn:Ea; [|discriminate].
    rewrite He.
    destruct (Z.eqb_spec (semver.Compare v rv) 1) as [Hc' | Hc']; auto.
Qed.

Lemma HasNewerVersionOf_all_parse (L : PluginList) (e : GrafanaPlugin)
  (rv : semver.Version) :
  semver.Parse (Version e) = Ok rv ->
  (forall y, In y L -> Name y = Name e -> parses (Version y) = true) ->
  HasNewerVersionOf L e = Ok (some_newer L e rv).
Proof.
  unfold parses. intros He. induction L as [|a L IH]; simpl; intros Hall.
  - reflexivity.
  - destruct (String.eqb (Name a) (Name e)) eqn:E; simpl; [|auto].
    apply String.eqb_eq in E. unfold semver.Make.
    specialize (Hall a (or_introl eq_refl) E) as Ha.
    destruct (semver.Parse (Version a)) as [v | err]; [|discriminate].
    rewrite He. destruct (semver.Compare v rv =? 1)%Z; simpl; auto.
Qed.

(** ** ConsolidatedConcat *)

Lemma ConsolidatedConcat_range_Ok (acc : PluginList)
  (others : list GrafanaPlugin) (r : PluginList) :
  ConsolidatedConcat_range acc others = Ok r ->
  r = acc ++ first_per_name any acc others.
Proof.
  revert acc. induction others as [|a others IH]; simpl; intros acc H.
  - injection H as <-. symmetry. apply app_nil_r.
  - destruct (HasSomeVersionOf acc a); simpl in *.
    + destruct (HasNewerVersionOf acc a) as [hasNewer | err]; [|discriminate].
      rewrite Update_unchanged in H.
      destruct hasNewer; [auto|].
      destruct (HasExactVersionOf acc a); auto.
    + rewrite (IH _ H), <- app_assoc. reflexivity.
Qed.

Lemma ConsolidatedConcat_range_distinct (acc : PluginList)
  (others : list GrafanaPlugin) :
  NoDup (map Name others) ->
  (forall x, In x others -> HasSomeVersionOf acc x = false) ->
  ConsolidatedConcat_range acc others = Ok (acc ++ others).
Proof.
  revert acc. induction others as [|a others IH]; simpl; intros acc Hnd Hs.
  - rewrite app_nil_r. reflexivity.
  - inversion Hnd as [|? ? Hna Hnd']; subst.
    rewrite (Hs a (or_introl eq_refl)). simpl.
    rewrite IH; [rewrite <- app_assoc; reflexivity | assumption |].
    intros x Hx. apply HasSomeVersionOf_snoc_false. split; [auto|].
    intros Hn. apply Hna. rewrite Hn. apply in_map. exact Hx.
Qed.

Lemma HasNewerVersionOf_conflict (acc : PluginList) (x p : GrafanaPlugin) :
  NoDup (map Name acc) -> In x acc -> Name x = Name p ->
  parses (Version x) = false \/ parses (Version p) = false ->
  exists err, HasNewerVersionOf acc p = Err err.
Proof.
  intros Hnd Hx Hn Hbad.
  assert (HasSomeVersionOf acc p = true) as Hs
    by (apply HasSomeVersionOf_true_iff; exists x; auto).
  destruct (semver.Parse (Version p)) as [rv | err] eqn:Ep.
  - destruct Hbad as [Hb | Hb]; [|unfold parses in Hb; rewrite Ep in Hb; discriminate].
    destruct (in_split _ _ Hx) as (pre & post & ->).
    apply HasNewerVersionOf_bad_listed with (rv := rv); auto.
    intros y yv Hy Hyn _ _.
    rewrite map_app in Hnd. simpl in Hnd. apply NoDup_remove_2 in Hnd.
    apply Hnd, in_or_app. left. rewrite Hn, <- Hyn. apply in_map. exact Hy.
  - apply HasNewerVersionOf_bad_requested; [exact Hs|].
    unfold parses. rewrite Ep. reflexivity.
Qed.

Lemma ConsolidatedConcat_range_conflict (others : list GrafanaPlugin) :
  forall acc, NoDup (map Name acc) -> conflict acc others ->
  exists err, ConsolidatedConcat_range acc others = Err err.
Proof.
  induction others as [|a others IH]; intros acc Hnd H.
  - destruct H as [(x & q & _ & [] & _) | (pre & p & mid & q & post & HI & _)].
    destruct pre; discriminate.
  - simpl. destruct (HasSomeVersionOf acc a) eqn:Hs; simpl.
    + destruct (HasNewerVersionOf acc a) as [hasNewer | err] eqn:Hnew; [|eauto].
      assert (exists err, ConsolidatedConcat_range acc others = Err err) as Hrest.
      { apply IH; [exact Hnd|].
        destruct H as [(x & q & Hx & Hq & Hname & Hbad)
                      | (pre & p & mid & q & post & HI & Hname & Hbad)].
        - destruct Hq as [<- | Hq].
          + destruct (HasNewerVersionOf_conflict acc x a Hnd Hx Hname Hbad)
              as [err He]. congruence.
          + left. exists x, q. auto.
        - destruct pre as [|a' pre]; simpl in HI; injection HI as <- HI.
          + apply HasSomeVersionOf_true_iff in Hs. destruct Hs as (x & Hx & Hxn).
            destruct Hbad as [Hb | Hb].
            * destruct (HasNewerVersionOf_conflict acc x a Hnd Hx Hxn
                          (or_intror Hb)) as [err He]. congruence.
            * left. exists x, q. repeat split; auto.
              -- rewrite HI. apply in_elt.
              -- congruence.
          + right. exists pre, p, mid, q, post. auto. }
      rewrite Update_unchanged.
      destruct hasNewer; [exact Hrest|].
      destruct (HasExactVersionOf acc a); exact Hrest.
    + apply IH; [apply NoDup_names_snoc; assumption|].
      destruct H as [(x & q & Hx & Hq & Hname & Hbad)
                    | (pre & p & mid & q & post & HI & Hname & Hbad)].
      * destruct Hq as [<- | Hq].
        -- apply (proj1 (HasSomeVersionOf_false_iff acc a)) in Hx; [|exact Hs].
           contradiction.
        -- left. exists x, q. repeat split; auto. apply in_or_app. auto.
      * destruct pre as [|a' pre]; simpl in HI; injection HI as <- HI.
        -- left. exists a, q. repeat split; auto.
           ++ apply in_or_app. simpl. auto.
           ++ rewrite HI. apply in_elt.
        -- right. exists pre, p, mid, q, post. auto.
Qed.

End Properties.

(** ** Hash *)

Lemma append_nil_r (s : string) : (s ++ EmptyString)%string = s.
Proof. induction s as [|c s IH]; simpl; [reflexivity | rewrite IH; reflexivity]. Qed.

Lemma append_assoc (s t u : string) :
  ((s ++ t) ++ u)%string = (s ++ (t ++ u))%string.
Proof. induction s as [|c s IH]; simpl; [reflexivity | rewrite IH; reflexivity]. Qed.

Lemma concat_empty_cons (x : string) (xs : list string) :
  String.concat EmptyString (x :: xs)
  = (x ++ String.concat EmptyString xs)%string.
Proof.
  destruct xs as [|y xs]; simpl; [symmetry; apply append_nil_r | reflexivity].
Qed.

Lemma Hash_range_spec (sb : string) (l : list GrafanaPlugin) :
  Hash_range sb l = (sb ++ fingerprint_text l)%string.
Proof.
  revert sb. induction l as [|p l IH]; intros sb.
  - simpl. symmetry. apply append_nil_r.
  - unfold fingerprint_text in *. cbn [Hash_range map].
    rewrite IH, concat_empty_cons, !append_assoc. reflexivity.
Qed.

(** The number of steps given to [sha256.blocks] does not matter once it
    reaches the length of the input. *)
Lemma blocks_enough_steps (n m : nat) (dig : sha256.state) (p : list Z) :
  (List.length p <= n)%nat -> (List.length p <= m)%nat ->
  sha256.blocks n dig p = sha256.blocks m dig p.
Proof.
  revert m dig p. induction n as [|n IH]; intros m dig p Hn Hm.
  - destruct p; [|simpl in Hn; lia]. destruct m; reflexivity.
  - destruct m as [|m].
    + destruct p; [reflexivity | simpl in Hm; lia].
    + cbn [sha256.blocks].
      destruct (Nat.leb_spec 64 (List.length p)) as [H | H]; [|reflexivity].
      apply IH; rewrite length_skipn; lia.
Qed.

Lemma Sum256_length (data : list Z) : List.length (sha256.Sum256 data) = 32%nat.
Proof.
  unfold sha256.Sum256.
  destruct (sha256.blocks _ sha256.init _) as [a b c d e f g h].
  reflexivity.
Qed.

Lemma Sprintf_x_length (bytes : list Z) :
  String.length (fmt.Sprintf_x bytes) = (2 * List.length bytes)%nat.
Proof. induction bytes as [|b bytes IH]; simpl; [reflexivity | rewrite IH; lia]. Qed.

Lemma hex_digit_lower (n : Z) : lower_hex (fmt.hex_digit n).
Proof.
  unfold fmt.hex_digit, lower_hex. generalize (Z.to_nat n). intros k.
  do 16 (destruct k as [|k]; [simpl; tauto|]).
  simpl. tauto.
Qed.

Lemma Sprintf_x_lower (bytes : list Z) :
  Forall lower_hex (list_ascii_of_string (fmt.Sprintf_x bytes)).
Proof.
  induction bytes as [|b bytes IH]; simpl; [constructor|].
  constructor; [apply hex_digit_lower|].
  constructor; [apply hex_digit_lower | exact IH].
Qed.

Lemma plugin_eta (x y : GrafanaPlugin) :
  Name x = Name y -> Version x = Version y -> x = y.
Proof. destruct x, y; simpl; intros -> ->; reflexivity. Qed.

Lemma same_fields_same_list (L1 L2 : PluginList) :
  map Name L1 = map Name L2 -> map Version L1 = map Version L2 -> L1 = L2.
Proof.
  revert L2. induction L1 as [|x L1 IH]; intros [|y L2]; simpl;
    try discriminate; [reflexivity|].
  intros Hn Hv. injection Hn as Hn Hn'. injection Hv as Hv Hv'.
  f_equal; [apply plugin_eta | apply IH]; assumption.
Qed.

(** C9. For every collection L, [Hash L] is the lowercase hexadecimal form
    of the SHA-256 digest of the text made of each entry's name immediately
    followed by its version, in sequence order with no separator; it has
    exactly 64 characters, each a digit or a letter from a to f; two
    collections with the same names and versions in the same order have the
    same hash.  The hash of the empty collection is the digest of the empty
    text. *)
Theorem Hash_is_hex_sha256 (L : PluginList) :
  Hash L = fmt.Sprintf_x (sha256.Sum256 (bytes_of_string (fingerprint_text L)))
  /\ String.length (Hash L) = 64%nat
  /\ Forall lower_hex (list_ascii_of_string (Hash L))
  /\ (forall L', map Name L' = map Name L -> map Version L' = map Version L ->
        Hash L' = Hash L)
  /\ Hash [] = "e3b0c44298fc1c149afbf4c8996fb92427ae41e4649b934ca495991b7852b855".
Proof.
  split; [|split; [|split; [|split]]].
  - unfold Hash. rewrite Hash_range_spec. reflexivity.
  - unfold Hash. rewrite Sprintf_x_length, Sum256_length. reflexivity.
  - apply Sprintf_x_lower.
  - intros L' Hn Hv. rewrite (same_fields_same_list L' L Hn Hv). reflexivity.
  - vm_compute. reflexivity.
Qed.

Lemma Hash_is_hex_sha256_witness :
  Hash [plugin "a" "1.0.0"; plugin "b" "3.0.0"]
  = fmt.Sprintf_x (sha256.Sum256 (bytes_of_string "a1.0.0b3.0.0"))
  /\ Hash [ {| Name := "a"; Version := "1.0.0" |} ] = Hash [plugin "a" "1.0.0"].
Proof.
  split.
  - exact (proj1 (Hash_is_hex_sha256 [plugin "a" "1.0.0"; plugin "b" "3.0.0"])).
  - apply (proj1 (proj2 (proj2 (proj2 (Hash_is_hex_sha256 [plugin "a" "1.0.0"])))));
      reflexivity.
Defined.

(** ** The claims on Update, HasNewerVersionOf and ConsolidatedConcat *)

(** C2. [Update] leaves the collection as it was, whether or not an entry
    carries the name of the argument: on the collection [("a","1.0.0")]
    updated with ("a","2.0.0") the entry still has version 1.0.0.  The
    version is assigned to the loop's copy of the entry. *)
Theorem Update_leaves_versions_unchanged :
  Update [plugin "a" "1.0.0"] (plugin "a" "2.0.0") = [plugin "a" "1.0.0"]
  /\ forall (l : PluginList) (e : GrafanaPlugin), Update l e = l.
Proof. split; [reflexivity | exact Update_unchanged]. Qed.

(** C1. On the incoming collection [("a","1.0.0"), ("a","2.0.0"),
    ("a","1.5.0")], [ConsolidatedConcat] succeeds with the single entry
    ("a","1.0.0"): the version retained is the first one seen, not the
    greatest.  The same holds of the increasing collection [("a","1.0.0"),
    ("a","2.0.0")], and, whatever the semantic-version package, a successful
    result on the first collection is [("a","1.0.0")]. *)
Theorem ConsolidatedConcat_retains_first_version :
  (forall l : PluginList,
     ConsolidatedConcat (pkg := blang.package) l
       [plugin "a" "1.0.0"; plugin "a" "2.0.0"; plugin "a" "1.5.0"]
     = Ok [plugin "a" "1.0.0"])
  /\ (forall l : PluginList,
        ConsolidatedConcat (pkg := blang.package) l
          [plugin "a" "1.0.0"; plugin "a" "2.0.0"]
        = Ok [plugin "a" "1.0.0"])
  /\ (forall (pkg : semver.Package) (l r : PluginList),
        ConsolidatedConcat l
          [plugin "a" "1.0.0"; plugin "a" "2.0.0"; plugin "a" "1.5.0"] = Ok r ->
        r = [plugin "a" "1.0.0"]).
Proof.
  split; [|split].
  - intros l. vm_compute. reflexivity.
  - intros l. vm_compute. reflexivity.
  - intros pkg l r H. unfold ConsolidatedConcat in H.
    apply ConsolidatedConcat_range_Ok in H. subst r. reflexivity.
Qed.

Section Claims.
Context {pkg : semver.Package}.

(** C10. If no entry of L has the name of e, [HasNewerVersionOf] returns
    false and no error, whatever the version strings of e and of the entries
    of L: no version is parsed. *)
Theorem HasNewerVersionOf_no_name_match (L : PluginList) (e : GrafanaPlugin) :
  (forall x, In x L -> Name x <> Name e) ->
  HasNewerVersionOf L e = Ok false.
Proof.
  intros H. apply HasNewerVersionOf_no_match.
  apply HasSomeVersionOf_false_iff. exact H.
Qed.

(** C4, amended. [HasNewerVersionOf] reads L in order and parses versions
    only at the entries that share the name of e.  It returns an error when
    some entry shares the name of e and the version of e does not parse, and
    when an entry sharing the name of e has a version that does not parse
    and no entry before it sharing that name is strictly greater than e.  It
    returns true when an entry sharing the name of e is strictly greater
    than e and the entries before it sharing that name parse and are not
    strictly greater, whatever follows.  When the version of e and those of
    all the entries sharing its name parse, it returns true exactly when one
    of these entries is strictly greater than e.  When no entry shares the
    name of e it returns false. *)
Theorem HasNewerVersionOf_cases (L : PluginList) (e : GrafanaPlugin) :
  ((exists x, In x L /\ Name x = Name e) -> parses (Version e) = false ->
     exists err, HasNewerVersionOf L e = Err err)
  /\ (forall rv pre x post,
        semver.Parse (Version e) = Ok rv -> L = pre ++ x :: post ->
        Name x = Name e -> parses (Version x) = false ->
        none_newer pre e rv ->
        exists err, HasNewerVersionOf L e = Err err)
  /\ (forall rv pre x xv post,
        semver.Parse (Version e) = Ok rv -> L = pre ++ x :: post ->
        Name x = Name e -> semver.Parse (Version x) = Ok xv ->
        semver.Compare xv rv = 1%Z ->
        (forall y, In y pre -> Name y = Name e -> parses (Version y) = true) ->
        none_newer pre e rv ->
        HasNewerVersionOf L e = Ok true)
  /\ (forall rv,
        semver.Parse (Version e) = Ok rv ->
        (forall y, In y L -> Name y = Name e -> parses (Version y) = true) ->
        HasNewerVersionOf L e = Ok (some_newer L e rv))
  /\ ((forall x, In x L -> Name x <> Name e) ->
        HasNewerVersionOf L e = Ok false).
Proof.
  split; [|split; [|split; [|split]]].
  - intros Hx Hb. apply HasNewerVersionOf_bad_requested; [|exact Hb].
    apply HasSomeVersionOf_true_iff. exact Hx.
  - intros rv pre x post He -> Hn Hb Hpre.
    apply HasNewerVersionOf_bad_listed with (rv := rv); assumption.
  - intros rv pre x xv post He -> Hn Hx Hc Hall Hpre.
    apply HasNewerVersionOf_newer_listed with (xv := xv) (rv := rv); assumption.
  - intros rv He Hall. apply HasNewerVersionOf_all_parse; assumption.
  - intros H. apply HasNewerVersionOf_no_match.
    apply HasSomeVersionOf_false_iff. exact H.
Qed.

(** C3, amended. [ConsolidatedConcat] fails, with no result collection,
    whenever two entries of the incoming collection have the same name and
    the version of one of them does not parse.  When no two incoming entries
    have the same name it succeeds and returns the incoming collection, no
    version being parsed. *)
Theorem ConsolidatedConcat_fails_on_shared_name (l I : PluginList) :
  (forall pre p mid q post,
     I = pre ++ p :: mid ++ q :: post -> Name p = Name q ->
     parses (Version p) = false \/ parses (Version q) = false ->
     exists err, ConsolidatedConcat l I = Err err)
  /\ (NoDup (map Name I) -> ConsolidatedConcat l I = Ok I).
Proof.
  split.
  - intros pre p mid q post HI Hn Hbad. unfold ConsolidatedConcat.
    apply ConsolidatedConcat_range_conflict; [constructor|].
    right. exists pre, p, mid, q, post. auto.
  - intros Hnd. unfold ConsolidatedConcat.
    rewrite ConsolidatedConcat_range_distinct; auto.
Qed.

(** A successful result has no two entries of the same name, and has an
    entry for every name of the incoming collection. *)
Lemma ConsolidatedConcat_NoDup_names (l I r : PluginList) :
  ConsolidatedConcat l I = Ok r -> NoDup (map Name r).
Proof.
  unfold ConsolidatedConcat. intros H.
  apply ConsolidatedConcat_range_Ok in H. subst r.
  apply first_per_name_NoDup.
Qed.

Lemma ConsolidatedConcat_covers_names (l I r : PluginList) (x : GrafanaPlugin) :
  ConsolidatedConcat l I = Ok r -> In x I ->
  exists y, In y r /\ Name y = Name x.
Proof.
  unfold ConsolidatedConcat. intros H Hx.
  apply ConsolidatedConcat_range_Ok in H. subst r.
  destruct (first_per_name_any_covers [] I x Hx) as [Hs | Hy];
    [discriminate | exact Hy].
Qed.

Lemma HasExactVersionOf_head (p : GrafanaPlugin) (l : PluginList) :
  HasExactVersionOf (p :: l) p = true.
Proof. simpl. rewrite !String.eqb_refl. reflexivity. Qed.

Lemma ConsolidatedConcat_duplicate (l : PluginList) (p : GrafanaPlugin) :
  parses (Version p) = true -> ConsolidatedConcat l [p; p] = Ok [p].
Proof.
  unfold parses, ConsolidatedConcat. intros Hp.
  cbn [ConsolidatedConcat_range HasSomeVersionOf negb app].
  rewrite String.eqb_refl. cbn [negb HasNewerVersionOf].
  rewrite String.eqb_refl. cbn [negb]. unfold semver.Make.
  destruct (semver.Parse (Version p)) as [v | err]; [|discriminate].
  rewrite HasExactVersionOf_head.
  destruct (semver.Compare v v =? 1)%Z; reflexivity.
Qed.

(** C8. [ConsolidatedConcat] does not depend on its receiver: on the same
    incoming collection two receivers give the same outcome, result or
    error; on the empty incoming collection the result is empty; and every
    entry of a result is an entry of the incoming collection. *)
Theorem ConsolidatedConcat_ignores_receiver (L1 L2 I : PluginList) :
  ConsolidatedConcat L1 I = ConsolidatedConcat L2 I
  /\ ConsolidatedConcat L1 [] = Ok []
  /\ (forall r x, ConsolidatedConcat L1 I = Ok r -> In x r -> In x I).
Proof.
  split; [reflexivity | split; [reflexivity|]].
  intros r x H Hx. unfold ConsolidatedConcat in H.
  apply ConsolidatedConcat_range_Ok in H. subst r.
  apply first_per_name_In in Hx. apply Hx.
Qed.

End Claims.

(** C7. Whenever [ConsolidatedConcat] succeeds, its result has at most one
    entry of each name ([VersionsOf] is at most 1 on it), and one for each
    name of the incoming collection;
    two equal incoming entries whose version parses collapse to one entry;
    on [("a","1.0.0"), ("a","1.0.0")] the result is the single entry
    ("a","1.0.0"). *)
Theorem ConsolidatedConcat_one_entry_per_name :
  (forall (pkg : semver.Package) (l I r : PluginList),
     ConsolidatedConcat l I = Ok r ->
     NoDup (map Name r)
     /\ (forall p, (VersionsOf r p <= 1)%Z)
     /\ forall x, In x I -> exists y, In y r /\ Name y = Name x)
  /\ (forall (pkg : semver.Package) (l : PluginList) (p : GrafanaPlugin),
        parses (Version p) = true -> ConsolidatedConcat l [p; p] = Ok [p])
  /\ (forall l : PluginList,
        ConsolidatedConcat (pkg := blang.package) l
          [plugin "a" "1.0.0"; plugin "a" "1.0.0"]
        = Ok [plugin "a" "1.0.0"]).
Proof.
  split; [|split].
  - intros pkg l I r H. split; [|split].
    + apply (ConsolidatedConcat_NoDup_names l I r H).
    + intros p. apply VersionsOf_NoDup.
      apply (ConsolidatedConcat_NoDup_names l I r H).
    + intros x. apply (ConsolidatedConcat_covers_names l I r x H).
  - intros pkg l p. apply ConsolidatedConcat_duplicate.
  - intros l. vm_compute. reflexivity.
Qed.

(** ** The claims at concrete collections *)

Lemma ConsolidatedConcat_one_entry_per_name_witness :
  ConsolidatedConcat (pkg := blang.package) []
    [plugin "a" "1.0.0"; plugin "b" "3.0.0"; plugin "a" "0.9.0"]
  = Ok [plugin "a" "1.0.0"; plugin "b" "3.0.0"]
  /\ NoDup (map Name [plugin "a" "1.0.0"; plugin "b" "3.0.0"]).
Proof.
  split; [vm_compute; reflexivity|].
  apply (proj1 ConsolidatedConcat_one_entry_per_name blang.package []
           [plugin "a" "1.0.0"; plugin "b" "3.0.0"; plugin "a" "0.9.0"]).
  reflexivity.
Defined.

Lemma ConsolidatedConcat_ignores_receiver_witness :
  ConsolidatedConcat (pkg := blang.package) [plugin "z" "9.9.9"]
    [plugin "a" "1.0.0"; plugin "b" "3.0.0"; plugin "a" "0.9.0"]
  = Ok [plugin "a" "1.0.0"; plugin "b" "3.0.0"]
  /\ In (plugin "b" "3.0.0")
       [plugin "a" "1.0.0"; plugin "b" "3.0.0"; plugin "a" "0.9.0"].
Proof.
  split; [vm_compute; reflexivity|].
  apply (proj2 (proj2 (ConsolidatedConcat_ignores_receiver (pkg := blang.package)
                         [plugin "z" "9.9.9"] []
                         [plugin "a" "1.0.0"; plugin "b" "3.0.0";
                          plugin "a" "0.9.0"]))
           [plugin "a" "1.0.0"; plugin "b" "3.0.0"]).
  - vm_compute. reflexivity.
  - simpl. auto.
Defined.

Lemma HasNewerVersionOf_no_name_match_witness :
  (forall x, In x [plugin "b" "not-a-version"] -> Name x <> "a")
  /\ parses (pkg := blang.package) "also-not-a-version" = false
  /\ HasNewerVersionOf (pkg := blang.package) [plugin "b" "not-a-version"]
       (plugin "a" "also-not-a-version") = Ok false.
Proof.
  assert (forall x, In x [plugin "b" "not-a-version"] -> Name x <> "a") as H
    by (intros x [<- | []]; discriminate).
  split; [exact H | split; [reflexivity|]].
  apply (HasNewerVersionOf_no_name_match (pkg := blang.package)
           [plugin "b" "not-a-version"] (plugin "a" "also-not-a-version") H).
Defined.

(** C4 as stated fails: with a version of e that does not parse and no entry
    of its name, the call returns false; with an entry of its name whose
    version does not parse standing after a strictly greater one, the call
    returns true.  Neither is an error. *)
Lemma HasNewerVersionOf_unparsable_version_no_error :
  parses (pkg := blang.package) "not-a-version" = false
  /\ HasNewerVersionOf (pkg := blang.package) []
       (plugin "a" "not-a-version") = Ok false
  /\ HasNewerVersionOf (pkg := blang.package)
       [plugin "a" "2.0.0"; plugin "a" "not-a-version"]
       (plugin "a" "1.0.0") = Ok true.
Proof. repeat split. Qed.

Lemma HasNewerVersionOf_cases_witness :
  (exists err,
     HasNewerVersionOf (pkg := blang.package)
       [plugin "a" "1.0.0"; plugin "a" "not-a-version"]
       (plugin "a" "1.5.0") = Err err)
  /\ HasNewerVersionOf (pkg := blang.package)
       [plugin "a" "2.0.0"; plugin "a" "not-a-version"]
       (plugin "a" "1.0.0") = Ok true.
Proof.
  split.
  - eapply (proj1 (proj2 (HasNewerVersionOf_cases (pkg := blang.package) _ _)))
      with (pre := [plugin "a" "1.0.0"]) (x := plugin "a" "not-a-version")
           (post := []); try reflexivity.
    intros y yv [<- | []] _ Hy. vm_compute in Hy. injection Hy as <-.
    vm_compute. discriminate.
  - eapply (proj1 (proj2 (proj2
              (HasNewerVersionOf_cases (pkg := blang.package) _ _))))
      with (pre := []) (x := plugin "a" "2.0.0")
           (post := [plugin "a" "not-a-version"]); try reflexivity.
    + intros y [].
    + intros y yv [].
Defined.

(** C3 as stated fails: an incoming collection with an entry whose version
    does not parse, and whose name no other entry has, is returned as it
    is. *)
Lemma ConsolidatedConcat_unparsable_version_accepted :
  parses (pkg := blang.package) "not-a-version" = false
  /\ ConsolidatedConcat (pkg := blang.package) []
       [plugin "a" "not-a-version"] = Ok [plugin "a" "not-a-version"]
  /\ ConsolidatedConcat (pkg := blang.package) []
       [plugin "a" "1.0.0"; plugin "b" "not-a-version"]
     = Ok [plugin "a" "1.0.0"; plugin "b" "not-a-version"].
Proof. repeat split. Qed.

Lemma ConsolidatedConcat_fails_on_shared_name_witness :
  (exists err,
     ConsolidatedConcat (pkg := blang.package) []
       [plugin "a" "not-a-version"; plugin "b" "3.0.0"; plugin "a" "1.0.0"]
     = Err err)
  /\ ConsolidatedConcat (pkg := blang.package) []
       [plugin "a" "not-a-version"; plugin "b" "3.0.0"]
     = Ok [plugin "a" "not-a-version"; plugin "b" "3.0.0"].
Proof.
  split.
  - apply (proj1 (ConsolidatedConcat_fails_on_shared_name
                    (pkg := blang.package) [] _)
             [] (plugin "a" "not-a-version") [plugin "b" "3.0.0"]
             (plugin "a" "1.0.0") []); [reflexivity | reflexivity |].
    left. reflexivity.
  - apply (proj2 (ConsolidatedConcat_fails_on_shared_name
                    (pkg := blang.package) [] _)).
    simpl. constructor.
    + simpl. intros [H | []]. discriminate.
    + constructor; [intros [] | constructor].
Defined.

(** ** Further evaluations *)

Example Sanitize_example :
  Sanitize (pkg := blang.package)
    [plugin "a" "not-a-version"; plugin "a" "1.0.0"; plugin "b" "2.0.0";
     plugin "a" "3.0.0"; plugin "c" "v1.0.0"]
  = [plugin "a" "1.0.0"; plugin "b" "2.0.0"].
Proof. reflexivity. Qed.

Example ConsolidatedConcat_example_decreasing :
  ConsolidatedConcat (pkg := blang.package) []
    [plugin "a" "1.0.0"; plugin "b" "3.0.0"; plugin "a" "0.9.0"]
  = Ok [plugin "a" "1.0.0"; plugin "b" "3.0.0"].
Proof. reflexivity. Qed.

Example ConsolidatedConcat_example_fatal :
  ConsolidatedConcat (pkg := blang.package) []
    [plugin "a" "1.0.0"; plugin "a" "not-a-version"]
  = Err (InvalidVersion "No Major.Minor.Patch elements found").
Proof. reflexivity. Qed.

Example HasExactVersionOf_example_build :
  HasExactVersionOf [plugin "a" "1.0.0"] (plugin "a" "1.0.0+build1") = false.
Proof. reflexivity. Qed.

Example Hash_example :
  Hash [plugin "a" "bc"]
  = "ba7816bf8f01cfea414140de5dae2223b00361a396177a9cb410ff61f20015ad".
Proof. vm_compute. reflexivity. Qed.

Example round_constants_example :
  List.length sha256._K = 64%nat
  /\ nth 0 sha256._K 0%Z = 0x428a2f98%Z
  /\ nth 63 sha256._K 0%Z = 0xc67178f2%Z.
Proof. repeat split. Qed.

(** * Further properties of the methods *)

(** ** Queries by name *)

Lemma GetInstalledVersionOf_find (l : PluginList) (p : GrafanaPlugin) :
  GetInstalledVersionOf l p = find (same_name p) l.
Proof.
  induction l as [|a l IH]; simpl; [reflexivity|]. unfold same_name at 1.
  destruct (String.eqb (Name a) (Name p)); [reflexivity | exact IH].
Qed.

Lemma HasSomeVersionOf_existsb (l : PluginList) (p : GrafanaPlugin) :
  HasSomeVersionOf l p = existsb (same_name p) l.
Proof.
  induction l as [|a l IH]; simpl; [reflexivity|]. unfold same_name at 1.
  destruct (String.eqb (Name a) (Name p)); [reflexivity | exact IH].
Qed.

Lemma existsb_find {A : Type} (f : A -> bool) (l : list A) :
  existsb f l = match find f l with Some _ => true | None => false end.
Proof.
  induction l as [|a l IH]; simpl; [reflexivity|].
  destruct (f a); [reflexivity | exact IH].
Qed.

Lemma VersionsOf_range_filter (i : Z) (l : list GrafanaPlugin)
  (p : GrafanaPlugin) :
  VersionsOf_range i l p
  = (i + Z.of_nat (List.length (filter (same_name p) l)))%Z.
Proof.
  revert i. induction l as [|a l IH]; simpl; intros i; [lia|].
  unfold same_name at 1.
  destruct (String.eqb (Name a) (Name p)); rewrite IH; simpl; lia.
Qed.

(** X1. [HasExactVersionOf] is membership: it is true exactly when the
    collection holds an entry equal to the argument, in name and in
    version string. *)
Theorem HasExactVersionOf_In (l : PluginList) (p : GrafanaPlugin) :
  HasExactVersionOf l p = true <-> In p l.
Proof.
  induction l as [|a l IH]; simpl.
  - split; [discriminate | intros []].
  - destruct (String.eqb (Name a) (Name p)
              && String.eqb (Version a) (Version p)) eqn:E.
    + apply andb_true_iff in E. destruct E as [En Ev].
      apply String.eqb_eq in En. apply String.eqb_eq in Ev.
      split; [|reflexivity]. intros _. left. apply plugin_eta; assumption.
    + rewrite IH. split; [auto|]. intros [-> | H]; [|exact H].
      rewrite !String.eqb_refl in E. discriminate.
Qed.

(** X2. [GetInstalledVersionOf] returns the first entry that has the name of
    the argument, whatever its version: an entry is returned exactly when it
    stands in the collection with that name and no entry before it has the
    name; nothing is returned exactly when no entry has the name. *)
Theorem GetInstalledVersionOf_first (l : PluginList) (p : GrafanaPlugin) :
  (forall x,
     GetInstalledVersionOf l p = Some x <->
     exists pre post,
       l = pre ++ x :: post /\ Name x = Name p /\
       forall y, In y pre -> Name y <> Name p)
  /\ (GetInstalledVersionOf l p = None <->
      forall y, In y l -> Name y <> Name p).
Proof.
  induction l as [|a l [IH1 IH2]]; simpl.
  - split.
    + intros x. split; [discriminate|].
      intros (pre & post & H & _). destruct pre; discriminate.
    + split; [intros _ y [] | reflexivity].
  - destruct (String.eqb_spec (Name a) (Name p)) as [E | E]; split.
    + intros x. split.
      * intros H. injection H as <-. exists [], l. simpl. intuition.
      * intros (pre & post & Hl & Hn & Hpre).
        destruct pre as [|b pre]; simpl in Hl; injection Hl as <- Hl.
        -- reflexivity.
        -- destruct (Hpre a (or_introl eq_refl) E).
    + split; [discriminate|]. intros H. destruct (H a (or_introl eq_refl) E).
    + intros x. rewrite IH1. split.
      * intros (pre & post & -> & Hn & Hpre). exists (a :: pre), post.
        simpl. repeat split; auto. intros y [<- | Hy]; auto.
      * intros (pre & post & Hl & Hn & Hpre).
        destruct pre as [|b pre]; simpl in Hl; injection Hl as <- Hl.
        -- contradiction.
        -- exists pre, post. repeat split; auto.
           intros y Hy. apply Hpre. right. exact Hy.
    + rewrite IH2. split.
      * intros H y [<- | Hy]; auto.
      * intros H y Hy. apply H. right. exact Hy.
Qed.

(** X3. [VersionsOf] counts the entries that have the name of the argument:
    the count lies between 0 and the length of the collection, and the
    count on two collections put end to end is the sum of the counts. *)
Theorem VersionsOf_counts (l : PluginList) (p : GrafanaPlugin) :
  VersionsOf l p = Z.of_nat (List.length (filter (same_name p) l))
  /\ (0 <= VersionsOf l p <= Z.of_nat (List.length l))%Z
  /\ forall l2, VersionsOf (l ++ l2) p = (VersionsOf l p + VersionsOf l2 p)%Z.
Proof.
  unfold VersionsOf. split; [|split].
  - rewrite VersionsOf_range_filter. reflexivity.
  - rewrite VersionsOf_range_filter.
    pose proof (filter_length_le (same_name p) l). lia.
  - intros l2. rewrite !VersionsOf_range_filter, filter_app, length_app. lia.
Qed.

(** X4. The queries by name agree: [HasSomeVersionOf] is true exactly when
    [VersionsOf] is positive and exactly when [GetInstalledVersionOf]
    returns an entry; and an exact match is in particular a match by
    name. *)
Theorem queries_by_name_agree (l : PluginList) (p : GrafanaPlugin) :
  HasSomeVersionOf l p = (0 <? VersionsOf l p)%Z
  /\ HasSomeVersionOf l p
     = match GetInstalledVersionOf l p with Some _ => true | None => false end
  /\ (HasExactVersionOf l p = true -> HasSomeVersionOf l p = true).
Proof.
  split; [|split].
  - unfold VersionsOf. rewrite VersionsOf_range_filter, HasSomeVersionOf_existsb.
    induction l as [|a l IH]; simpl; [reflexivity|].
    destruct (same_name p a); simpl; [|exact IH].
    symmetry. apply Z.ltb_lt. lia.
  - rewrite HasSomeVersionOf_existsb, GetInstalledVersionOf_find.
    apply existsb_find.
  - induction l as [|a l IH]; simpl; [discriminate|].
    destruct (String.eqb (Name a) (Name p)); simpl; [reflexivity | exact IH].
Qed.

Lemma queries_by_name_agree_witness :
  HasExactVersionOf [plugin "b" "2.0.0"; plugin "a" "1.0.0"]
    (plugin "a" "1.0.0") = true
  /\ HasSomeVersionOf [plugin "b" "2.0.0"; plugin "a" "1.0.0"]
       (plugin "a" "1.0.0") = true.
Proof.
  split; [reflexivity|].
  apply (proj2 (proj2 (queries_by_name_agree
                         [plugin "b" "2.0.0"; plugin "a" "1.0.0"]
                         (plugin "a" "1.0.0")))).
  reflexivity.
Defined.

Lemma first_per_name_distinct (ok : GrafanaPlugin -> bool) (seen : PluginList)
  (l : list GrafanaPlugin) :
  NoDup (map Name l) ->
  (forall x, In x l -> HasSomeVersionOf seen x = false) ->
  first_per_name ok seen l = filter ok l.
Proof.
  revert seen. induction l as [|a l IH]; simpl; intros seen Hnd Hs.
  - reflexivity.
  - inversion Hnd as [|? ? Hna Hnd']; subst.
    rewrite (Hs a (or_introl eq_refl)), andb_true_r.
    destruct (ok a); [f_equal|]; apply IH; auto.
    intros x Hx. apply HasSomeVersionOf_snoc_false. split; [auto|].
    intros Hn. apply Hna. rewrite Hn. apply in_map. exact Hx.
Qed.

Lemma GetInstalledVersionOf_first_per_name (ok : GrafanaPlugin -> bool)
  (seen : PluginList) (l : list GrafanaPlugin) (p : GrafanaPlugin) :
  HasSomeVersionOf seen p = false ->
  GetInstalledVersionOf (first_per_name ok seen l) p
  = find (fun x => same_name p x && ok x) l.
Proof.
  revert seen. induction l as [|a l IH]; simpl; intros seen Hs.
  - reflexivity.
  - unfold same_name at 1.
    destruct (ok a && negb (HasSomeVersionOf seen a)) eqn:E.
    + apply andb_true_iff in E. destruct E as [Ea _]. rewrite Ea, andb_true_r.
      simpl. destruct (String.eqb (Name a) (Name p)) eqn:En; [reflexivity|].
      apply IH. apply HasSomeVersionOf_snoc_false. split; [exact Hs|].
      apply String.eqb_neq. exact En.
    + rewrite (IH seen Hs).
      destruct (String.eqb (Name a) (Name p)) eqn:En; [|reflexivity].
      apply String.eqb_eq in En.
      rewrite (HasSomeVersionOf_name seen a p En), Hs, andb_true_r in E.
      rewrite E. reflexivity.
Qed.

Lemma VersionsOf_distinct (l : PluginList) (p : GrafanaPlugin) :
  NoDup (map Name l) ->
  VersionsOf l p = if HasSomeVersionOf l p then 1%Z else 0%Z.
Proof.
  intros Hnd. unfold VersionsOf. rewrite VersionsOf_range_count.
  pose proof (proj1 (NoDup_count_occ string_dec (map Name l)) Hnd (Name p)) as H1.
  destruct (HasSomeVersionOf l p) eqn:Hs.
  - apply HasSomeVersionOf_In_names in Hs.
    apply (count_occ_In string_dec) in Hs. lia.
  - destruct (Nat.eq_dec (count_occ string_dec (map Name l) (Name p)) 0)
      as [H0 | H0]; [lia|].
    assert (In (Name p) (map Name l)) as Hin
      by (apply (count_occ_In string_dec); lia).
    apply HasSomeVersionOf_In_names in Hin. congruence.
Qed.

Section Extras.
Context {pkg : semver.Package}.

(** ** HasNewerVersionOf *)

(** X5. The result of [HasNewerVersionOf] depends only on the entries that
    have the name of the argument: the entries of other names can be left
    out of the collection, the others keeping their order, without changing
    the result or the error. *)
Theorem HasNewerVersionOf_only_same_name (l : PluginList) (e : GrafanaPlugin) :
  HasNewerVersionOf l e = HasNewerVersionOf (filter (same_name e) l) e.
Proof.
  induction l as [|a l IH]; simpl; [reflexivity|]. unfold same_name at 1.
  destruct (String.eqb (Name a) (Name e)) eqn:E; simpl; [|exact IH].
  rewrite E. simpl.
  destruct (semver.Make (Version a)) as [lv | err]; [|reflexivity].
  destruct (semver.Make (Version e)) as [rv | err]; [|reflexivity].
  destruct (semver.Compare lv rv =? 1)%Z; [reflexivity | exact IH].
Qed.



Lemma HasNewerVersionOf_Err_inv (l : PluginList) (e : GrafanaPlugin)
  (err : error) :
  HasNewerVersionOf l e = Err err ->
  semver.Parse (Version e) = Err err
  \/ exists x, In x l /\ Name x = Name e /\ semver.Parse (Version x) = Err err.
Proof.
  induction l as [|a l IH]; simpl; [discriminate|].
  assert (HasNewerVersionOf l e = Err err ->
          semver.Parse (Version e) = Err err
          \/ exists x, (a = x \/ In x l) /\ Name x = Name e /\
                       semver.Parse (Version x) = Err err) as IH'.
  { intros H. destruct (IH H) as [H' | (x & Hx & Hrest)]; [auto|].
    right. exists x. auto. }
  destruct (String.eqb_spec (Name a) (Name e)) as [E | E]; simpl; [|exact IH'].
  unfold semver.Make.
  destruct (semver.Parse (Version a)) as [lv | err1] eqn:Ea.
  - destruct (semver.Parse (Version e)) as [rv | err2] eqn:Ee.
    + destruct (semver.Compare lv rv =? 1)%Z; [discriminate | exact IH'].
    + intros H. injection H as <-. left. reflexivity.
  - intros H. injection H as <-. right. exists a. auto.
Qed.


Lemma HasNewerVersionOf_distinct (l : PluginList) (e : GrafanaPlugin) :
  NoDup (map Name l) ->
  HasNewerVersionOf l e
  = match GetInstalledVersionOf l e with
    | None => Ok false
    | Some x => newer_than x e
    end.
Proof.
  induction l as [|a l IH]; simpl; intros Hnd; [reflexivity|].
  inversion Hnd as [|? ? Hna Hnd']; subst.
  destruct (String.eqb_spec (Name a) (Name e)) as [E | E]; simpl; [|auto].
  unfold newer_than.
  destruct (semver.Make (Version a)) as [lv | err]; [|reflexivity].
  destruct (semver.Make (Version e)) as [rv | err]; [|reflexivity].
  destruct (semver.Compare lv rv =? 1)%Z; [reflexivity|].
  apply HasNewerVersionOf_no_match. apply HasSomeVersionOf_false_iff.
  intros x Hx Hn. apply Hna. rewrite E, <- Hn. apply in_map. exact Hx.
Qed.

(** X7. On a collection whose names are distinct, [HasNewerVersionOf] is
    the comparison of the argument with the entry [GetInstalledVersionOf]
    returns, and false when it returns none.  On a sanitized collection it
    is the comparison with the first entry of the original collection that
    has the name and a version that parses; it can then fail only on the
    version of the argument. *)
Theorem HasNewerVersionOf_single_entry (l : PluginList) (e : GrafanaPlugin) :
  (NoDup (map Name l) ->
     HasNewerVersionOf l e
     = match GetInstalledVersionOf l e with
       | None => Ok false
       | Some x => newer_than x e
       end)
  /\ HasNewerVersionOf (Sanitize l) e
     = match first_valid l e with
       | None => Ok false
       | Some x => newer_than x e
       end
  /\ (parses (Version e) = true ->
      exists b, HasNewerVersionOf (Sanitize l) e = Ok b).
Proof.
  assert (HasNewerVersionOf (Sanitize l) e
          = match first_valid l e with
            | None => Ok false
            | Some x => newer_than x e
            end) as HS.
  { rewrite HasNewerVersionOf_distinct.
    - rewrite Sanitize_spec, GetInstalledVersionOf_first_per_name; reflexivity.
    - rewrite Sanitize_spec. apply first_per_name_NoDup. }
  split; [apply HasNewerVersionOf_distinct | split; [exact HS|]].
  intros He. rewrite HS. unfold first_valid.
  destruct (find _ l) as [x|] eqn:Hf; [|eauto].
  apply find_some in Hf. destruct Hf as [_ Hf].
  apply andb_true_iff in Hf. destruct Hf as [_ Hx].
  unfold newer_than, semver.Make, valid, parses in *.
  destruct (semver.Parse (Version x)); [|discriminate].
  destruct (semver.Parse (Version e)); [eauto | discriminate].
Qed.

End Extras.

Section ExtrasSanitize.
Context {pkg : semver.Package}.

(** ** Sanitize *)

(** X8. [Sanitize] returns the collection it was given exactly when that
    collection has no two entries of the same name and every version in it
    parses. *)
Theorem Sanitize_unchanged_iff (l : PluginList) :
  Sanitize l = l <->
  NoDup (map Name l) /\ Forall (fun p => parses (Version p) = true) l.
Proof.
  split.
  - intros H. split.
    + rewrite <- H, Sanitize_spec. apply first_per_name_NoDup.
    + apply Forall_forall. intros p Hp. rewrite <- H, Sanitize_spec in Hp.
      apply first_per_name_In in Hp. apply Hp.
  - intros [Hnd Hok]. rewrite Sanitize_spec.
    apply first_per_name_fixpoint; auto.
Qed.

(** X9. Entries added at the end of a collection never change what
    [Sanitize] retained of it: sanitizing [l1 ++ l2] is the loop of
    [Sanitize] run on [l2] from the sanitized [l1], and its result is the
    sanitized [l1] followed by entries of [l2], in their order. *)
Theorem Sanitize_app (l1 l2 : PluginList) :
  Sanitize (l1 ++ l2) = Sanitize_range (Sanitize l1) l2
  /\ exists t, Sanitize (l1 ++ l2) = Sanitize l1 ++ t /\ Subsequence t l2.
Proof.
  assert (forall acc,
            Sanitize_range acc (l1 ++ l2)
            = Sanitize_range (Sanitize_range acc l1) l2) as Happ.
  { induction l1 as [|a l1 IH]; simpl; intros acc; [reflexivity|].
    destruct (semver.Parse (Version a)); [|apply IH].
    destruct (negb (HasSomeVersionOf acc a)); apply IH. }
  assert (Sanitize (l1 ++ l2) = Sanitize_range (Sanitize l1) l2) as H
    by apply Happ.
  split; [exact H|].
  exists (first_per_name valid (Sanitize l1) l2). split.
  - rewrite H. apply Sanitize_range_spec.
  - apply first_per_name_Subsequence.
Qed.

(** X10. On a collection with no two entries of the same name, [Sanitize]
    only leaves out the entries whose version does not parse. *)
Theorem Sanitize_distinct_names (l : PluginList) :
  NoDup (map Name l) ->
  Sanitize l = filter (fun p => parses (Version p)) l.
Proof.
  intros Hnd. rewrite Sanitize_spec.
  apply (first_per_name_distinct valid [] l Hnd). reflexivity.
Qed.

(** X11. The queries by name on a sanitized collection, read on the
    original one: [GetInstalledVersionOf] returns the first entry that has
    the name and a version that parses; [HasSomeVersionOf] tells whether
    there is one; [VersionsOf] is then 1, and 0 otherwise. *)
Theorem Sanitize_queries (l : PluginList) (p : GrafanaPlugin) :
  GetInstalledVersionOf (Sanitize l) p = first_valid l p
  /\ HasSomeVersionOf (Sanitize l) p
     = existsb (fun x => same_name p x && parses (Version x)) l
  /\ VersionsOf (Sanitize l) p
     = if existsb (fun x => same_name p x && parses (Version x)) l
       then 1%Z else 0%Z.
Proof.
  assert (GetInstalledVersionOf (Sanitize l) p = first_valid l p) as HG.
  { rewrite Sanitize_spec.
    apply GetInstalledVersionOf_first_per_name. reflexivity. }
  assert (HasSomeVersionOf (Sanitize l) p
          = existsb (fun x => same_name p x && parses (Version x)) l) as HS.
  { rewrite HasSomeVersionOf_existsb, !existsb_find.
    rewrite <- GetInstalledVersionOf_find, HG. reflexivity. }
  split; [exact HG | split; [exact HS|]].
  rewrite <- HS. apply VersionsOf_distinct.
  rewrite Sanitize_spec. apply first_per_name_NoDup.
Qed.

End ExtrasSanitize.

Section ExtrasConcat.
Context {pkg : semver.Package}.

(** ** ConsolidatedConcat *)

(** X12. [ConsolidatedConcat] never fails on a sanitized incoming
    collection, and returns it as it is. *)
Theorem ConsolidatedConcat_after_Sanitize (l I : PluginList) :
  ConsolidatedConcat l (Sanitize I) = Ok (Sanitize I).
Proof.
  unfold ConsolidatedConcat.
  rewrite ConsolidatedConcat_range_distinct; [reflexivity | | reflexivity].
  rewrite Sanitize_spec. apply first_per_name_NoDup.
Qed.

Lemma ConsolidatedConcat_range_succeeds (others : list GrafanaPlugin) :
  forall acc,
    (forall x q, In x acc -> In q others -> Name x = Name q ->
       parses (Version x) = true /\ parses (Version q) = true) ->
    shared_names_parse others ->
    exists r, ConsolidatedConcat_range acc others = Ok r.
Proof.
  induction others as [|a others IH]; simpl; intros acc Hacc Hsh; [eauto|].
  assert (shared_names_parse others) as Hsh'.
  { intros pre p mid q post -> Hn.
    apply (Hsh (a :: pre) p mid q post); [reflexivity | exact Hn]. }
  destruct (HasSomeVersionOf acc a) eqn:Hs; simpl.
  - assert (forall x q, In x acc -> In q others -> Name x = Name q ->
              parses (Version x) = true /\ parses (Version q) = true) as Hacc'
      by (intros x q Hx Hq; apply Hacc; [exact Hx | right; exact Hq]).
    apply HasSomeVersionOf_true_iff in Hs. destruct Hs as (x & Hx & Hxn).
    destruct (Hacc x a Hx (or_introl eq_refl) Hxn) as [_ Ha].
    unfold parses in Ha.
    destruct (semver.Parse (Version a)) as [rv | err] eqn:Ea; [|discriminate].
    rewrite (HasNewerVersionOf_all_parse acc a rv Ea).
    + rewrite Update_unchanged.
      destruct (some_newer acc a rv); [auto|].
      destruct (HasExactVersionOf acc a); auto.
    + intros y Hy Hyn. apply (Hacc y a Hy (or_introl eq_refl) Hyn).
  - apply IH; [|exact Hsh'].
    intros x q Hx Hq Hn. apply in_app_or in Hx. destruct Hx as [Hx | [<- | []]].
    + apply Hacc; [exact Hx | right; exact Hq | exact Hn].
    + destruct (in_split _ _ Hq) as (mid & post & ->).
      apply (Hsh [] a mid q post); [reflexivity | exact Hn].
Qed.

(** X13. [ConsolidatedConcat] succeeds exactly when, for every two entries
    of the incoming collection that have the same name, the versions of
    both parse. *)
Theorem ConsolidatedConcat_succeeds_iff (l I : PluginList) :
  (exists r, ConsolidatedConcat l I = Ok r) <-> shared_names_parse I.
Proof.
  unfold ConsolidatedConcat. split.
  - intros (r & Hr) pre p mid q post HI Hn.
    destruct (parses (Version p)) eqn:Hp, (parses (Version q)) eqn:Hq; auto;
      (destruct (ConsolidatedConcat_range_conflict I [] (NoDup_nil _))
         as [err He];
       [right; exists pre, p, mid, q, post; auto | congruence]).
  - intros Hsh. apply ConsolidatedConcat_range_succeeds; [|exact Hsh].
    intros x q [].
Qed.

(** X14. An error of [ConsolidatedConcat] is the parse error of the version
    of an entry of the incoming collection. *)
Theorem ConsolidatedConcat_error_of_incoming (l I : PluginList) (err : error) :
  ConsolidatedConcat l I = Err err ->
  exists p, In p I /\ semver.Parse (Version p) = Err err.
Proof.
  unfold ConsolidatedConcat.
  assert (forall others acc,
            ConsolidatedConcat_range acc others = Err err ->
            exists p, In p (acc ++ others)
                      /\ semver.Parse (Version p) = Err err) as H.
  { induction others as [|a others IH]; simpl; intros acc H; [discriminate|].
    destruct (HasSomeVersionOf acc a); simpl in H.
    - destruct (HasNewerVersionOf acc a) as [b | err'] eqn:Hn.
      + rewrite Update_unchanged in H.
        assert (ConsolidatedConcat_range acc others = Err err) as H'
          by (destruct b; [|destruct (HasExactVersionOf acc a)]; exact H).
        destruct (IH _ H') as (p & Hp & He). exists p. split; [|exact He].
        apply in_app_or in Hp. apply in_or_app. simpl. tauto.
      + injection H as ->. apply HasNewerVersionOf_Err_inv in Hn.
        destruct Hn as [He | (x & Hx & _ & He)].
        * exists a. split; [apply in_or_app; simpl; auto | exact He].
        * exists x. split; [apply in_or_app; auto | exact He].
    - destruct (IH _ H) as (p & Hp & He). exists p. split; [|exact He].
      rewrite <- app_assoc in Hp. exact Hp. }
  intros HI. apply (H I [] HI).
Qed.

(** X15. [ConsolidatedConcat] is idempotent: a result it returned is
    returned as it is when given as the incoming collection, whatever the
    receiver. *)
Theorem ConsolidatedConcat_idempotent (l I r : PluginList) :
  ConsolidatedConcat l I = Ok r ->
  forall l', ConsolidatedConcat l' r = Ok r.
Proof.
  unfold ConsolidatedConcat. intros H l'.
  apply ConsolidatedConcat_range_Ok in H. subst r.
  rewrite ConsolidatedConcat_range_distinct; [reflexivity | | reflexivity].
  apply first_per_name_NoDup.
Qed.

(** X16. [ConsolidatedConcat] reads the incoming collection from its
    start: on [I1 ++ I2] it fails with the error it has on [I1] if it fails
    there, and otherwise it is the loop run on [I2] from the result it has
    on [I1].  Entries added at the end cannot remove an error. *)
Theorem ConsolidatedConcat_app (l I1 I2 : PluginList) :
  ConsolidatedConcat l (I1 ++ I2)
  = match ConsolidatedConcat l I1 with
    | Err err => Err err
    | Ok r1 => ConsolidatedConcat_range r1 I2
    end
  /\ (forall err,
        ConsolidatedConcat l I1 = Err err ->
        ConsolidatedConcat l (I1 ++ I2) = Err err).
Proof.
  assert (forall acc,
            ConsolidatedConcat_range acc (I1 ++ I2)
            = match ConsolidatedConcat_range acc I1 with
              | Err err => Err err
              | Ok r1 => ConsolidatedConcat_range r1 I2
              end) as H.
  { induction I1 as [|a I1 IH]; simpl; intros acc; [reflexivity|].
    destruct (HasSomeVersionOf acc a); simpl; [|apply IH].
    destruct (HasNewerVersionOf acc a) as [b | err]; [|reflexivity].
    destruct b; [apply IH|].
    destruct (HasExactVersionOf acc a); apply IH. }
  unfold ConsolidatedConcat. split; [apply H|].
  intros err He. rewrite H, He. reflexivity.
Qed.

End ExtrasConcat.

(** ** Hash and String *)

(** X17. [Hash] reads neither where a name ends and its version begins nor
    where an entry ends: moving the end of a name to the start of its
    version, merging two consecutive entries into one, or adding an entry
    with empty name and version leaves the hash unchanged. *)
Theorem Hash_ignores_boundaries (n s v n1 v1 n2 v2 : string) (l : PluginList) :
  Hash (plugin (n ++ s) v :: l) = Hash (plugin n (s ++ v) :: l)
  /\ Hash (plugin n1 v1 :: plugin n2 v2 :: l)
     = Hash (plugin n1 (v1 ++ n2 ++ v2) :: l)
  /\ Hash (plugin EmptyString EmptyString :: l) = Hash l.
Proof.
  unfold Hash. cbn [Hash_range plugin Name Version]. simpl append.
  split; [|split].
  - rewrite append_assoc. reflexivity.
  - rewrite !append_assoc. reflexivity.
  - reflexivity.
Qed.

Lemma String_range_spec (plugins : list string) (l : list GrafanaPlugin) :
  String_range plugins l
  = plugins ++ map (fun p => fmt.Sprintf_s_s (Name p) (Version p)) l.
Proof.
  revert plugins. induction l as [|p l IH]; simpl; intros plugins.
  - symmetry. apply app_nil_r.
  - rewrite IH, <- app_assoc. reflexivity.
Qed.

Lemma append_empty_inv (a b : string) :
  (a ++ b)%string = EmptyString -> a = EmptyString /\ b = EmptyString.
Proof. destruct a; simpl; [auto | discriminate]. Qed.

Lemma Join_app (l1 l2 : list string) (sep : string) :
  l1 <> [] -> l2 <> [] ->
  strings.Join (l1 ++ l2) sep
  = (strings.Join l1 sep ++ sep ++ strings.Join l2 sep)%string.
Proof.
  intros H1 H2. induction l1 as [|x l1 IH]; [contradiction|].
  destruct l1 as [|y l1].
  - destruct l2 as [|z l2]; [contradiction | reflexivity].
  - change (strings.Join ((x :: y :: l1) ++ l2) sep)
      with (x ++ sep ++ strings.Join ((y :: l1) ++ l2) sep)%string.
    rewrite IH by discriminate.
    change (strings.Join (x :: y :: l1) sep)
      with (x ++ sep ++ strings.Join (y :: l1) sep)%string.
    rewrite !append_assoc. reflexivity.
Qed.

(** X18. [String] gives the empty string exactly on the empty collection,
    and the text of two non-empty collections put end to end is their texts
    with one comma between them. *)
Theorem PluginList_String_shape (l : PluginList) :
  (PluginList_String l = EmptyString <-> l = [])
  /\ (forall l2, l <> [] -> l2 <> [] ->
        PluginList_String (l ++ l2)
        = (PluginList_String l ++ "," ++ PluginList_String l2)%string).
Proof.
  unfold PluginList_String. split.
  - split; [|intros ->; reflexivity].
    destruct l as [|p l]; [reflexivity|]. rewrite String_range_spec.
    cbn [app map]. unfold fmt.Sprintf_s_s at 1. intros H. exfalso.
    destruct (map _ l) as [|y ys]; cbn [strings.Join] in H.
    + apply append_empty_inv in H. destruct H as [_ H]. discriminate.
    + apply append_empty_inv in H. destruct H as [H _].
      apply append_empty_inv in H. destruct H as [_ H]. discriminate.
  - intros l2 H1 H2. rewrite !String_range_spec. cbn [app].
    rewrite map_app. apply Join_app.
    + destruct l; [contradiction | discriminate].
    + destruct l2; [contradiction | discriminate].
Qed.

(** ** The further properties at concrete collections *)

Lemma PluginList_String_shape_witness :
  PluginList_String ([plugin "a" "1.0.0"] ++ [plugin "b" "2.0.0"])
  = (PluginList_String [plugin "a" "1.0.0"] ++ ","
     ++ PluginList_String [plugin "b" "2.0.0"])%string.
Proof.
  apply (proj2 (PluginList_String_shape [plugin "a" "1.0.0"])); discriminate.
Defined.

Example PluginList_String_example :
  PluginList_String [plugin "a" "1.0.0"; plugin "b" "2.0.0"]
  = "a 1.0.0,b 2.0.0".
Proof. reflexivity. Qed.


Lemma HasNewerVersionOf_single_entry_witness :
  NoDup (map Name [plugin "b" "9.0.0"; plugin "a" "2.0.0"])
  /\ HasNewerVersionOf (pkg := blang.package)
       [plugin "b" "9.0.0"; plugin "a" "2.0.0"] (plugin "a" "1.0.0")
     = newer_than (plugin "a" "2.0.0") (plugin "a" "1.0.0").
Proof.
  assert (NoDup (map Name [plugin "b" "9.0.0"; plugin "a" "2.0.0"])) as H.
  { constructor; [simpl; intros [H | []]; discriminate|].
    constructor; [intros [] | constructor]. }
  split; [exact H|].
  apply (proj1 (HasNewerVersionOf_single_entry (pkg := blang.package)
                  [plugin "b" "9.0.0"; plugin "a" "2.0.0"]
                  (plugin "a" "1.0.0")) H).
Defined.

Lemma Sanitize_distinct_names_witness :
  Sanitize (pkg := blang.package)
    [plugin "a" "not-a-version"; plugin "b" "1.0.0"]
  = filter (fun p => parses (pkg := blang.package) (Version p))
      [plugin "a" "not-a-version"; plugin "b" "1.0.0"].
Proof.
  apply (Sanitize_distinct_names (pkg := blang.package)).
  constructor; [simpl; intros [H | []]; discriminate|].
  constructor; [intros [] | constructor].
Defined.

Lemma ConsolidatedConcat_error_of_incoming_witness :
  exists p,
    In p [plugin "a" "1.0.0"; plugin "a" "not-a-version"]
    /\ blang.Parse (Version p)
       = Err (InvalidVersion "No Major.Minor.Patch elements found").
Proof.
  apply (ConsolidatedConcat_error_of_incoming (pkg := blang.package) []
           [plugin "a" "1.0.0"; plugin "a" "not-a-version"]).
  reflexivity.
Defined.

Lemma ConsolidatedConcat_idempotent_witness :
  ConsolidatedConcat (pkg := blang.package) [plugin "z" "9.9.9"]
    [plugin "a" "1.0.0"; plugin "b" "3.0.0"]
  = Ok [plugin "a" "1.0.0"; plugin "b" "3.0.0"].
Proof.
  apply (ConsolidatedConcat_idempotent (pkg := blang.package) []
           [plugin "a" "1.0.0"; plugin "b" "3.0.0"; plugin "a" "0.9.0"]).
  reflexivity.
Defined.

Lemma ConsolidatedConcat_app_witness :
  ConsolidatedConcat (pkg := blang.package) []
    ([plugin "a" "1.0.0"; plugin "a" "not-a-version"] ++ [plugin "b" "1.0.0"])
  = Err (InvalidVersion "No Major.Minor.Patch elements found").
Proof.
  apply (proj2 (ConsolidatedConcat_app (pkg := blang.package) []
                  [plugin "a" "1.0.0"; plugin "a" "not-a-version"]
                  [plugin "b" "1.0.0"])).
  reflexivity.
Defined.

Example Sanitize_example_positions :
  Sanitize (pkg := blang.package)
    [plugin "a" "1.0.0"; plugin "b" "2.0.0"; plugin "a" "1.0.0"]
  = [plugin "a" "1.0.0"; plugin "b" "2.0.0"]
  /\ first_parsing_occurrences (pkg := blang.package)
       [plugin "a" "not-a-version"; plugin "a" "1.0.0"; plugin "b" "2.0.0";
        plugin "a" "1.0.0"]
     = [plugin "a" "1.0.0"; plugin "b" "2.0.0"].
Proof. split; reflexivity. Qed.
